(** * grpcwebproxy: a shallow embedding of [main.go]

    The proxy is glue code around gRPC libraries.  This development
    embeds the parts of [main.go] that carry behaviour of their own:

    - the [director] closure of [NewGrpcProxyServer], which rewrites the
      call metadata and picks the backend connection;
    - [NewAllowedOriginsFunc], the CORS origin predicate;
    - [NewUpstreamConnection], [MustGetString], [MustGetBool] and the
      start-up sequence [rootRun].

    Library calls are modelled next to the code that uses them, each in a
    module named after its Go package. *)

From Stdlib Require Import ZArith Lia Ascii.
From stdpp Require Import base option list gmap strings.

(** ** Go values shared by every package *)

(** A Go [error] interface value: [None] is [nil], [Some msg] an error
    whose [Error()] text is [msg]. *)
Definition error := option string.
Definition nil_error : error := None.

(** ** Go maps of metadata as heap objects *)

Module gomap.

(** [type MD map[string][]string].  The content of one map: keys have no
    order, the values of a key are an ordered slice. *)
Abbreviation MD := (gmap string (list string)).

(** Go maps are reference values.  A variable of type [MD] is either the
    nil map or points to a map object; the objects live in a store that
    is addressed by position. *)
Inductive MDref :=
| nilMD
| mdAt (l : nat).

Abbreviation Heap := (list MD).

(** Code that reads and updates the store of map objects. *)
Definition St (A : Type) : Type := Heap → A * Heap.

Definition St_ret {A} (a : A) : St A := λ h, (a, h).

Definition St_bind {A B} (m : St A) (k : A → St B) : St B :=
  λ h, let '(a, h') := m h in k a h'.

(** Reading through a reference; the nil map reads as the empty map. *)
Definition deref (h : Heap) (r : MDref) : MD :=
  match r with
  | nilMD => ∅
  | mdAt l => default ∅ (h !! l)
  end.

(** [make(MD)] / [MD{}]: a new map object at the end of the store. *)
Definition alloc (m : MD) : St MDref :=
  λ h, (mdAt (length h), h ++ [m]).

(** The builtin [delete(m, key)]: a no-op on the nil map and on an absent
    key, otherwise the map object is updated in place. *)
Definition delete_key (m : MDref) (key : string) : St unit :=
  λ h, match m with
       | nilMD => (tt, h)
       | mdAt l => (tt, alter (delete key) l h)
       end.

End gomap.
Export gomap.

Global Instance St_mret : MRet St := @St_ret.
Global Instance St_mbind : MBind St := λ A B k m, St_bind m k.

(** ** Package [context] *)

Module context.

(** The keys and values this program and the metadata package store in a
    context.  [mdIncomingKey] and [mdOutgoingKey] are the private key
    types of the metadata package; [otherKey] stands for any key of
    another package. *)
Inductive Key :=
| mdIncomingKey
| mdOutgoingKey
| otherKey (n : nat).

Global Instance Key_eq_dec : EqDecision Key.
Proof. solve_decision. Defined.

Inductive Val :=
| VMD (md : MDref)        (* an [MD] value *)
| VrawMD (md : MDref)     (* [rawMD{md: md}], as NewOutgoingContext stores *)
| VOther (n : nat).       (* a value of another package *)

(** A context is the chain its constructors built: every derived context
    keeps its parent.  [done] names the channel of a cancellable
    context, [deadline] is a point in time. *)
Inductive Context :=
| Background
| cancelCtx (parent : Context) (done : nat)
| timerCtx (parent : Context) (done : nat) (deadline : Z)
| valueCtx (parent : Context) (key : Key) (val : Val).

(** [ctx.Value(key)]: the nearest binding of [key] up the chain. *)
Fixpoint Value (ctx : Context) (key : Key) : option Val :=
  match ctx with
  | Background => None
  | cancelCtx p _ => Value p key
  | timerCtx p _ _ => Value p key
  | valueCtx p k v => if decide (k = key) then Some v else Value p key
  end.

(** [ctx.Deadline()]. *)
Fixpoint Deadline (ctx : Context) : option Z :=
  match ctx with
  | Background => None
  | cancelCtx p _ => Deadline p
  | timerCtx _ _ d => Some d
  | valueCtx p _ _ => Deadline p
  end.

(** [ctx.Done()]: the channel that is closed on cancellation, [None] for
    a context that can never be cancelled. *)
Fixpoint Done (ctx : Context) : option nat :=
  match ctx with
  | Background => None
  | cancelCtx _ c => Some c
  | timerCtx _ c _ => Some c
  | valueCtx p _ _ => Done p
  end.

(** [ctx.Err()], given which done-channels are closed by now and why. *)
Definition Err (ctx : Context) (closed : nat → error) : error :=
  match Done ctx with
  | None => nil_error
  | Some c => closed c
  end.

Definition WithValue (parent : Context) (key : Key) (val : Val) : Context :=
  valueCtx parent key val.

End context.
Export context.

(** ** Package [google.golang.org/grpc/metadata] *)

Module metadata.

(** [out[k] = append(out[k], v...)] for every pair [k, v] of [md]. *)
Definition join_into (out md : MD) : MD :=
  union_with (λ vs ws, Some (vs ++ ws)) out md.

(** [func Join(mds ...MD) MD]: a new map that holds, for every key, the
    values of all [mds] in order. *)
Definition Join (mds : list MDref) : St MDref :=
  λ h, alloc (foldl (λ out r, join_into out (deref h r)) ∅ mds) h.

(** [func (md MD) Copy() MD { return Join(md) }].  The receiver may be
    the nil map: ranging over it yields nothing. *)
Definition Copy (md : MDref) : St MDref := Join [md].

(** [func FromIncomingContext(ctx) (md MD, ok bool)] is the checked type
    assertion [ctx.Value(mdIncomingKey{}).(MD)]. *)
Definition FromIncomingContext (ctx : Context) : MDref * bool :=
  match Value ctx mdIncomingKey with
  | Some (VMD md) => (md, true)
  | _ => (nilMD, false)
  end.

(** [func NewOutgoingContext(ctx, md)]:
    [context.WithValue(ctx, mdOutgoingKey{}, rawMD{md: md})]. *)
Definition NewOutgoingContext (ctx : Context) (md : MDref) : Context :=
  WithValue ctx mdOutgoingKey (VrawMD md).

(** The map a context carries for the outgoing call, which the client
    transport sends as request headers. *)
Definition outgoing_ref (ctx : Context) : MDref :=
  match Value ctx mdOutgoingKey with
  | Some (VrawMD md) => md
  | _ => nilMD
  end.

End metadata.

(** What a call observes of its metadata: the content of the incoming map
    of a context, and of the outgoing one. *)
Definition incoming_metadata (ctx : Context) (h : Heap) : MD :=
  deref h (metadata.FromIncomingContext ctx).1.

Definition outgoing_metadata (ctx : Context) (h : Heap) : MD :=
  deref h (metadata.outgoing_ref ctx).

(** ** Package [go.uber.org/zap] *)

Module zap.
(** The two logger configurations [rootRun] chooses between. *)
Inductive Logger := Production | Development.
Inductive Level := InfoLevel | FatalLevel.
End zap.

(** ** Package [google.golang.org/grpc] *)

Module grpc.

(** The [grpc.Codec] interface. *)
Record Codec := {
  Marshal : list Byte.byte → list Byte.byte * error;
  Unmarshal : list Byte.byte → list Byte.byte * error;
  String : string
}.

(** Transport credentials loaded from a certificate file. *)
Record TransportCredentials := { certFile : string; serverName : string }.

Inductive DialOption :=
| WithTransportCredentials (creds : option TransportCredentials)
| WithInsecure
| WithCodec (c : Codec).

(** A client connection: the target and the options it was dialed
    with.  A [*grpc.ClientConn] is [option ClientConn], [None] being the
    nil pointer. *)
Record ClientConn := { target : string; dopts : list DialOption }.

(** The transport security a list of dial options sets. *)
Definition insecure (opts : list DialOption) : bool :=
  existsb (λ o, match o with WithInsecure => true | _ => false end) opts.

Definition transportCredentials (opts : list DialOption)
  : option TransportCredentials :=
  mjoin (last (omap (λ o, match o with
                          | WithTransportCredentials c => Some c
                          | _ => None
                          end) opts)).

(** The error [grpc.Dial] returns for the options above.  None of them
    is [WithBlock]: Dial checks the options and returns at once, and the
    connection is made later, in the background, so neither the target
    nor the state of the network has a part in the result.  The check is
    on the transport security: credentials together with [WithInsecure]
    are an error, and so is no security at all. *)
Definition dialError (opts : list DialOption) : error :=
  if insecure opts then
    match transportCredentials opts with
    | Some _ =>
        Some "grpc: transport credentials are set for an insecure connection (grpc.WithTransportCredentials() and grpc.WithInsecure() are both called)"
    | None => None
    end
  else
    match transportCredentials opts with
    | Some _ => None
    | None =>
        Some "grpc: no transport security set (use grpc.WithInsecure() explicitly or set credentials)"
    end.

(** A [grpc.StreamHandler].  The only one this program installs is
    [proxy.TransparentHandler(director)].  It is represented by its
    routing function alone: what the handler does after routing, opening
    a stream on the connection the director returned and pumping the
    messages, is code of the library and is not modelled. *)
Definition StreamHandler : Type :=
  Context → string → St (Context * option ClientConn * error).

Inductive Interceptor :=
| grpczap_Interceptor (logger : zap.Logger)
| grpcprom_Interceptor.

Inductive ServerOption :=
| CustomCodec (c : Codec)
| UnknownServiceHandler (h : StreamHandler)
| WithUnaryServerChain (chain : list Interceptor)
| WithStreamServerChain (chain : list Interceptor).

(** [grpc.NewServer(opts...)]: a server is the options it was built
    with. *)
Record Server := { opts : list ServerOption }.

Definition NewServer (o : list ServerOption) : Server := {| opts := o |}.

(** The codec of a server: the last [CustomCodec] option. *)
Definition codec (srv : Server) : option Codec :=
  last (omap (λ o, match o with CustomCodec c => Some c | _ => None end)
          (opts srv)).

(** The codec of a client connection: the last [WithCodec] option. *)
Definition connCodec (cc : ClientConn) : option Codec :=
  last (omap (λ o, match o with WithCodec c => Some c | _ => None end)
          (dopts cc)).

(** The handler of unknown services: the last such option. *)
Definition unknownHandler (srv : Server) : option StreamHandler :=
  last (omap (λ o, match o with UnknownServiceHandler d => Some d | _ => None end)
          (opts srv)).

End grpc.

(** ** [main.go]: the director *)

(** The closure [director] of [NewGrpcProxyServer]; [upstream] is the
    variable it captures. *)
Definition director (upstream : option grpc.ClientConn)
    (ctx : Context) (_ : string)
  : St (Context * option grpc.ClientConn * error) :=
  let '(metadataIn, _) := metadata.FromIncomingContext ctx in
  md ← metadata.Copy metadataIn;
  _ ← delete_key md "user-agent";
  _ ← delete_key md "connection";
  mret (metadata.NewOutgoingContext ctx md, upstream, nil_error).

(** ** Package [github.com/jzelinskie/stringz] *)

Module stringz.

(** [SliceContains(ys, x)]: some element of [ys] equals [x]. *)
Fixpoint SliceContains (ys : list string) (x : string) : bool :=
  match ys with
  | [] => false
  | y :: ys' => if String.eqb x y then true else SliceContains ys' x
  end.

(** [SliceEqual(xs, ys)]: same length and equal element by element. *)
Fixpoint SliceEqual (xs ys : list string) : bool :=
  match xs, ys with
  | [], [] => true
  | x :: xs', y :: ys' => if String.eqb x y then SliceEqual xs' ys' else false
  | _, _ => false
  end.

End stringz.

(** ** Package [strings] *)

Module strings.

(** [strings.Split(s, sep)] for a separator of one byte, which is how
    [rootRun] calls it: the pieces of [s] between the occurrences of
    [sep], in order.  A string without separator is its only piece, and
    so the empty string splits into one empty piece. *)
Fixpoint Split (s : string) (sep : ascii) : list string :=
  match s with
  | EmptyString => [EmptyString]
  | String c s' =>
      if Ascii.eqb c sep then EmptyString :: Split s' sep
      else match Split s' sep with
           | piece :: pieces => String c piece :: pieces
           | [] => [String c EmptyString]
           end
  end.

(** [strings.Join(elems, sep)]. *)
Fixpoint Join (elems : list string) (sep : string) : string :=
  match elems with
  | [] => EmptyString
  | [e] => e
  | e :: elems' => e +:+ sep +:+ Join elems' sep
  end.

(** [strings.ReplaceAll(s, old, new)] for [old] and [new] of one byte
    each, which is how [syncViper] calls it. *)
Fixpoint ReplaceAll (s : string) (old new : ascii) : string :=
  match s with
  | EmptyString => EmptyString
  | String c s' =>
      String (if Ascii.eqb c old then new else c) (ReplaceAll s' old new)
  end.

Definition upper (c : ascii) : ascii :=
  let n := N_of_ascii c in
  if (N.leb 97 n && N.leb n 122)%bool then ascii_of_N (n - 32) else c.

Definition lower (c : ascii) : ascii :=
  let n := N_of_ascii c in
  if (N.leb 65 n && N.leb n 90)%bool then ascii_of_N (n + 32) else c.

(** [strings.ToUpper] and [strings.ToLower] on ASCII strings, which the
    names of the flags of [main] are: the letters change case, every
    other byte stays.  On a string with other bytes the functions of Go
    also change the case of letters outside ASCII; there these two are
    not the functions of Go, and what is proved through them is stated
    for ASCII strings. *)
Fixpoint ToUpper (s : string) : string :=
  match s with
  | EmptyString => EmptyString
  | String c s' => String (upper c) (ToUpper s')
  end.

Fixpoint ToLower (s : string) : string :=
  match s with
  | EmptyString => EmptyString
  | String c s' => String (lower c) (ToLower s')
  end.

End strings.

(** ** [main.go]: the CORS origin predicate *)

Definition NewAllowedOriginsFunc (urls : list string) : string → bool :=
  if stringz.SliceEqual urls [""] then
    λ _, true
  else
    λ origin, stringz.SliceContains urls origin.

(** ** Package [os]: expansion of environment references *)

Module os.

Definition isShellSpecialVar (c : ascii) : bool :=
  existsb (Ascii.eqb c)
    [ "*"; "#"; "$"; "@"; "!"; "?"; "-";
      "0"; "1"; "2"; "3"; "4"; "5"; "6"; "7"; "8"; "9" ]%char.

Definition between (lo hi c : ascii) : bool :=
  (N.leb (N_of_ascii lo) (N_of_ascii c)) && (N.leb (N_of_ascii c) (N_of_ascii hi)).

Definition isAlphaNum (c : ascii) : bool :=
  Ascii.eqb c "_" || between "0" "9" c || between "a" "z" c
  || between "A" "Z" c.

Fixpoint drop (n : nat) (s : string) : string :=
  match n, s with
  | S n', String _ s' => drop n' s'
  | _, _ => s
  end.

Fixpoint take (n : nat) (s : string) : string :=
  match n, s with
  | S n', String c s' => String c (take n' s')
  | _, _ => EmptyString
  end.

(** Position of the first occurrence of byte [c]. *)
Fixpoint index (c : ascii) (s : string) : option nat :=
  match s with
  | EmptyString => None
  | String d s' => if Ascii.eqb d c then Some 0 else S <$> index c s'
  end.

(** Length of the longest prefix of alphanumerics. *)
Fixpoint alnum_prefix (s : string) : nat :=
  match s with
  | String c s' => if isAlphaNum c then S (alnum_prefix s') else 0
  | EmptyString => 0
  end.

(** [len(s) > 2 && isShellSpecialVar(s[1]) && s[2] == '}'], on what
    follows the opening brace [s[0]]. *)
Definition special_in_braces (s1 : string) : bool :=
  match s1 with
  | String c1 (String c2 _) => isShellSpecialVar c1 && Ascii.eqb c2 "}"
  | _ => false
  end.

(** [getShellName(s)]: the name that begins [s] and how many bytes to
    skip.  [Expand] calls it on what follows a dollar sign, which is
    never empty there. *)
Definition getShellName (s : string) : string * nat :=
  match s with
  | EmptyString => (EmptyString, 0)
  | String c0 s1 =>
      if Ascii.eqb c0 "{" then
        if special_in_braces s1 then (take 1 s1, 3)
        else
          (* scan to the closing brace *)
          match index "}" s1 with
          | Some 0 => (EmptyString, 2)        (* bad syntax; eat "${}" *)
          | Some n => (take n s1, n + 2)
          | None => (EmptyString, 1)          (* bad syntax; eat "${" *)
          end
      else if isShellSpecialVar c0 then (String c0 EmptyString, 1)
      else
        (* scan alphanumerics *)
        let i := alnum_prefix s in (take i s, i)
  end.

(** The loop of [os.Expand(s, mapping)], from the current position on.
    Every round consumes a byte, so [fuel] equal to the length of [s]
    reaches the end. *)
Fixpoint expand (fuel : nat) (mapping : string → string) (s : string)
  : string :=
  match fuel, s with
  | S fuel', String c rest =>
      if Ascii.eqb c "$" && negb (String.eqb rest "") then
        let '(name, w) := getShellName rest in
        let out :=
          if String.eqb name "" then
            if (0 <? w)%nat then ""   (* invalid syntax; eat the characters *)
            else "$"                  (* no name: the dollar is left *)
          else mapping name in
        out +:+ expand fuel' mapping (drop w rest)
      else String c (expand fuel' mapping rest)
  | _, _ => s
  end.

Definition Expand (s : string) (mapping : string → string) : string :=
  expand (String.length s) mapping s.

(** [os.Getenv], given the environment of the process: the empty string
    for a variable that is not set. *)
Definition Getenv (environ : gmap string string) (key : string) : string :=
  default "" (environ !! key).

Definition ExpandEnv (environ : gmap string string) (s : string) : string :=
  Expand s (Getenv environ).

End os.

(** ** Packages [github.com/spf13/pflag] and [github.com/spf13/cobra] *)

Module pflag.

(** The value of a flag, of the two types [main] declares. *)
Inductive Value :=
| stringValue (s : string)
| boolValue (b : bool).

(** [Value.Type()]. *)
Definition Type_ (v : Value) : string :=
  match v with
  | stringValue _ => "string"
  | boolValue _ => "bool"
  end.

(** The flags of a command by name. *)
Abbreviation FlagSet := (gmap string Value).

(** [func (f *FlagSet) GetString(name string) (string, error)]: an error
    for a name that is not defined and for a flag of another type. *)
Definition GetString (f : FlagSet) (name : string) : string * error :=
  match f !! name with
  | None => ("", Some ("flag accessed but not defined: " +:+ name))
  | Some (stringValue s) => (s, nil_error)
  | Some v =>
      ("", Some ("trying to get string value of flag of type " +:+ Type_ v))
  end.

(** [func (f *FlagSet) GetBool(name string) (bool, error)]. *)
Definition GetBool (f : FlagSet) (name : string) : bool * error :=
  match f !! name with
  | None => (false, Some ("flag accessed but not defined: " +:+ name))
  | Some (boolValue b) => (b, nil_error)
  | Some v =>
      (false, Some ("trying to get bool value of flag of type " +:+ Type_ v))
  end.

End pflag.

Module cobra.
Record Command := { Flags : pflag.FlagSet }.
End cobra.

(** ** Package [github.com/mwitkow/grpc-proxy/proxy] *)

Module proxy.

(** Modelled from the spec: the codec returned by [proxy.Codec()], whose
    code is not part of this repository's sources.  Section 4.1
    (RawCodec): [marshal(value) -> bytes] and [unmarshal(bytes) -> value]
    where the value is always already a byte sequence; both operations
    are identity transforms, and the codec cannot fail. *)
Definition Codec : grpc.Codec :=
  {| grpc.Marshal := λ v, (v, nil_error);
     grpc.Unmarshal := λ data, (data, nil_error);
     grpc.String := "proxy" |}.

(** The routing function a transparent handler is built from. *)
Definition StreamDirector : Type := grpc.StreamHandler.

(** [proxy.TransparentHandler(director)], as far as it is modelled: the
    director it was built with.  Nothing can be read off it of what a
    call does after the director returned. *)
Definition TransparentHandler (director : StreamDirector)
  : grpc.StreamHandler := director.

End proxy.

(** ** Packages [grpcweb] and [net/http] *)

Module grpcweb.

Inductive Option_ :=
| WithCorsForRegisteredEndpointsOnly (b : bool)
| WithOriginFunc (f : string → bool).

Record WrappedGrpcServer := {
  server : grpc.Server;
  corsForRegisteredEndpointsOnly : bool;
  originFunc : string → bool
}.

Definition apply (w : WrappedGrpcServer) (o : Option_) : WrappedGrpcServer :=
  match o with
  | WithCorsForRegisteredEndpointsOnly b =>
      {| server := server w; corsForRegisteredEndpointsOnly := b;
         originFunc := originFunc w |}
  | WithOriginFunc f =>
      {| server := server w;
         corsForRegisteredEndpointsOnly := corsForRegisteredEndpointsOnly w;
         originFunc := f |}
  end.

(** [grpcweb.WrapServer(srv, options...)]: the options applied in order
    to the defaults of the package. *)
Definition WrapServer (srv : grpc.Server) (os : list Option_)
  : WrappedGrpcServer :=
  foldl apply
    {| server := srv; corsForRegisteredEndpointsOnly := true;
       originFunc := λ _, false |} os.

End grpcweb.

Module http.
(** [http.Server{Addr, Handler}]; a nil handler is the default mux. *)
Record Server := {
  Addr : string;
  Handler : option grpcweb.WrappedGrpcServer
}.
End http.

(** ** The process: what it does to the outside, and how it ends *)

#[local] Set Warnings "-register-all".

Inductive Event :=
| EvLog (logger : zap.Logger) (lvl : zap.Level) (msg : string)
    (fields : list (string * string))
| EvSync (logger : zap.Logger)
| EvEnableTracing
| EvReplaceGrpcLogger (logger : zap.Logger)
| EvReadCert (path : string)
| EvDial (target : string)
| EvHandle (pattern : string)
| EvListenAndServe (srv : http.Server)
| EvListenAndServeTLS (srv : http.Server) (certFile keyFile : string)
| EvGo (body : list Event).

(** A run of code ends by returning, by a panic, or by [os.Exit]; in each
    case with the events it produced so far, oldest first. *)
Inductive Outcome (A : Type) :=
| Returned (a : A) (tr : list Event)
| Panicked (msg : string) (tr : list Event)
| Exited (code : Z) (tr : list Event).
Arguments Returned {A} a tr.
Arguments Panicked {A} msg tr.
Arguments Exited {A} code tr.

Definition IO (A : Type) : Type := list Event → Outcome A.

Definition IO_ret {A} (a : A) : IO A := λ tr, Returned a tr.

Definition IO_bind {A B} (m : IO A) (k : A → IO B) : IO B :=
  λ tr, match m tr with
        | Returned a tr' => k a tr'
        | Panicked msg tr' => Panicked msg tr'
        | Exited code tr' => Exited code tr'
        end.

Global Instance IO_mret : MRet IO := @IO_ret.
Global Instance IO_mbind : MBind IO := λ A B k m, IO_bind m k.

Definition emit (e : Event) : IO unit := λ tr, Returned tt (tr ++ [e]).

(** The builtin [panic]. *)
Definition panic {A} (msg : string) : IO A := λ tr, Panicked msg tr.

(** [os.Exit(code)]. *)
Definition Exit {A} (code : Z) : IO A := λ tr, Exited code tr.

(** [defer d] in front of [body]: [d] runs when [body] returns and when it
    panics, and does not run when the process exits. *)
Definition defer {A} (d : IO unit) (body : IO A) : IO A :=
  λ tr, match body tr with
        | Returned a tr' =>
            match d tr' with
            | Returned _ tr'' => Returned a tr''
            | Panicked msg tr'' => Panicked msg tr''
            | Exited code tr'' => Exited code tr''
            end
        | Panicked msg tr' =>
            match d tr' with
            | Returned _ tr'' => Panicked msg tr''
            | Panicked msg' tr'' => Panicked msg' tr''
            | Exited code tr'' => Exited code tr''
            end
        | Exited code tr' => Exited code tr'
        end.

(** [go body()]: the goroutine runs beside its parent.  Its events are
    kept together in one [EvGo].  A panic inside it is not recovered and
    ends the process with exit status 2, and so does an exit inside it
    with its own code; no deferred call of the parent runs then. *)
Definition go (body : IO unit) : IO unit :=
  λ tr, match body [] with
        | Returned _ t => Returned tt (tr ++ [EvGo t])
        | Panicked msg t => Exited 2 (tr ++ [EvGo t])
        | Exited code t => Exited code (tr ++ [EvGo t])
        end.

(** [logger.Info(msg, fields...)]. *)
Definition Info (logger : zap.Logger) (msg : string)
    (fields : list (string * string)) : IO unit :=
  emit (EvLog logger zap.InfoLevel msg fields).

(** [logger.Fatal(msg, fields...)]: writes the entry, then [os.Exit(1)]. *)
Definition Fatal (logger : zap.Logger) (msg : string)
    (fields : list (string * string)) : IO unit :=
  _ ← emit (EvLog logger zap.FatalLevel msg fields);
  Exit 1.

(** What the code cannot decide itself. *)
Record World := {
  (** the environment variables of the process *)
  environ : gmap string string;
  (** the error of loading the certificate at a path, nil when it loads *)
  certFault : string → error;
  (** the error [grpc.Dial] reports for a target and options, nil when it
      hands out a connection *)
  dialFault : string → list grpc.DialOption → error
}.

Section process.
Variable world : World.

(** [credentials.NewClientTLSFromFile(certFile, serverNameOverride)]. *)
Definition NewClientTLSFromFile (certFile serverNameOverride : string)
  : IO (option grpc.TransportCredentials * error) :=
  _ ← emit (EvReadCert certFile);
  match certFault world certFile with
  | Some e => mret (None, Some e)
  | None =>
      mret (Some {| grpc.certFile := certFile;
                    grpc.serverName := serverNameOverride |}, nil_error)
  end.

(** [grpc.Dial(target, opts...)]: a connection or an error, never both. *)
Definition Dial (target : string) (opts : list grpc.DialOption)
  : IO (option grpc.ClientConn * error) :=
  _ ← emit (EvDial target);
  match dialFault world target opts with
  | Some e => mret (None, Some e)
  | None =>
      mret (Some {| grpc.target := target; grpc.dopts := opts |}, nil_error)
  end.

(** *** [main.go] *)

Definition MustGetBool (cmd : cobra.Command) (key : string) : IO bool :=
  let '(val, err) := pflag.GetBool (cobra.Flags cmd) key in
  match err with
  | Some e => panic ("failed to find flag " +:+ key +:+ ": " +:+ e)
  | None => mret val
  end.

Definition MustGetString (cmd : cobra.Command) (key : string) : IO string :=
  let '(val, err) := pflag.GetString (cobra.Flags cmd) key in
  match err with
  | Some e => panic ("failed to find flag " +:+ key +:+ ": " +:+ e)
  | None => mret (os.ExpandEnv (environ world) val)
  end.

Definition NewUpstreamConnection (addr certPath : string)
  : IO (option grpc.ClientConn * error) :=
  let opts : list grpc.DialOption := [] in
  if negb (String.eqb certPath "") then
    '(creds, err) ← NewClientTLSFromFile certPath "";
    match err with
    | Some _ => mret (None, err)
    | None =>
        let opts := opts ++ [grpc.WithTransportCredentials creds] in
        let opts := opts ++ [grpc.WithCodec proxy.Codec] in
        Dial addr opts
    end
  else
    let opts := opts ++ [grpc.WithInsecure] in
    let opts := opts ++ [grpc.WithCodec proxy.Codec] in
    Dial addr opts.

Definition NewGrpcProxyServer (logger : zap.Logger)
    (upstream : option grpc.ClientConn) : IO (grpc.Server * error) :=
  _ ← emit EvEnableTracing;
  _ ← emit (EvReplaceGrpcLogger logger);
  let director := director upstream in
  mret (grpc.NewServer
          [ grpc.CustomCodec proxy.Codec;
            grpc.UnknownServiceHandler (proxy.TransparentHandler director);
            grpc.WithUnaryServerChain
              [grpc.grpczap_Interceptor logger; grpc.grpcprom_Interceptor];
            grpc.WithStreamServerChain
              [grpc.grpczap_Interceptor logger; grpc.grpcprom_Interceptor] ],
        nil_error).

Definition NewGrpcWebServer (srv : grpc.Server) (allowedOrigins : list string)
  : IO (grpcweb.WrappedGrpcServer * error) :=
  mret (grpcweb.WrapServer srv
          [ grpcweb.WithCorsForRegisteredEndpointsOnly false;
            grpcweb.WithOriginFunc (NewAllowedOriginsFunc allowedOrigins) ],
        nil_error).

(** [if err != nil { logger.Fatal(msg, zap.String("error", err.Error())) }] *)
Definition fatal_on (logger : zap.Logger) (err : error) (msg : string)
  : IO unit :=
  match err with
  | Some e => Fatal logger msg [("error", e)]
  | None => mret tt
  end.

(** The goroutine of [rootRun] that serves grpc-web. *)
Definition serveWeb (cmd : cobra.Command) (logger : zap.Logger)
    (grpcwebsrv : grpcweb.WrappedGrpcServer) : IO unit :=
  certPath ← MustGetString cmd "web-cert-path";
  keyPath ← MustGetString cmd "web-key-path";
  addr ← MustGetString cmd "web-addr";
  let websrv := {| http.Addr := addr; http.Handler := Some grpcwebsrv |} in
  if negb (String.eqb certPath "") && negb (String.eqb keyPath "") then
    addr ← MustGetString cmd "web-addr";
    _ ← Info logger "grpc-web server listening over HTTPS"
          [("addr", addr); ("certPath", certPath); ("keyPath", keyPath)];
    emit (EvListenAndServeTLS websrv certPath keyPath)
  else
    addr ← MustGetString cmd "web-addr";
    _ ← Info logger "grpc-web server listening over HTTP" [("addr", addr)];
    emit (EvListenAndServe websrv).

Definition rootRun (cmd : cobra.Command) (args : list string) : IO unit :=
  debug ← MustGetBool cmd "debug";
  let logger := if (debug : bool) then zap.Development else zap.Production in
  defer (emit (EvSync logger)) (
    addr ← MustGetString cmd "upstream-addr";
    certPath ← MustGetString cmd "upstream-cert-path";
    '(upstream, err) ← NewUpstreamConnection addr certPath;
    _ ← fatal_on logger err "failed to connect to upstream";

    '(srv, err) ← NewGrpcProxyServer logger upstream;
    _ ← fatal_on logger err "failed to init grpc server";

    allowed ← MustGetString cmd "web-allowed-origins";
    let origins := strings.Split allowed "," in
    '(grpcwebsrv, err) ← NewGrpcWebServer srv origins;
    _ ← fatal_on logger err "failed to init grpcweb server";

    _ ← go (serveWeb cmd logger grpcwebsrv);

    addr ← MustGetString cmd "metrics-addr";
    _ ← Info logger "metrics server listening over HTTP" [("addr", addr)];
    _ ← emit (EvHandle "/metrics");
    addr ← MustGetString cmd "metrics-addr";
    emit (EvListenAndServe {| http.Addr := addr; http.Handler := None |})).

End process.

(** [NewUpstreamConnection] in closed form: the connection, the error and
    the events it adds. *)
Definition upstream_result (world : World) (addr certPath : string)
  : option grpc.ClientConn * error * list Event :=
  if negb (String.eqb certPath "") then
    match certFault world certPath with
    | Some e => (None, Some e, [EvReadCert certPath])
    | None =>
        let opts := [grpc.WithTransportCredentials
                       (Some {| grpc.certFile := certPath; grpc.serverName := "" |});
                     grpc.WithCodec proxy.Codec] in
        match dialFault world addr opts with
        | Some e => (None, Some e, [EvReadCert certPath; EvDial addr])
        | None => (Some {| grpc.target := addr; grpc.dopts := opts |}, nil_error,
                   [EvReadCert certPath; EvDial addr])
        end
    end
  else
    let opts := [grpc.WithInsecure; grpc.WithCodec proxy.Codec] in
    match dialFault world addr opts with
    | Some e => (None, Some e, [EvDial addr])
    | None => (Some {| grpc.target := addr; grpc.dopts := opts |}, nil_error,
               [EvDial addr])
    end.

(** The values of the flags of [main] after parsing. *)
Record Config := {
  debug : bool;
  upstream_addr : string;
  upstream_cert_path : string;
  web_addr : string;
  web_key_path : string;
  web_cert_path : string;
  web_allowed_origins : string;
  metrics_addr : string
}.

Definition flags_of (cfg : Config) : list (string * pflag.Value) :=
  [ ("upstream-addr", pflag.stringValue (upstream_addr cfg));
    ("upstream-cert-path", pflag.stringValue (upstream_cert_path cfg));
    ("web-addr", pflag.stringValue (web_addr cfg));
    ("web-key-path", pflag.stringValue (web_key_path cfg));
    ("web-cert-path", pflag.stringValue (web_cert_path cfg));
    ("web-allowed-origins", pflag.stringValue (web_allowed_origins cfg));
    ("metrics-addr", pflag.stringValue (metrics_addr cfg));
    ("debug", pflag.boolValue (debug cfg)) ].

(** The flags [main] declares, with their defaults. *)
Definition defaults : Config :=
  {| debug := false;
     upstream_addr := "127.0.0.1:50051";
     upstream_cert_path := "";
     web_addr := ":80";
     web_key_path := "";
     web_cert_path := "";
     web_allowed_origins := "";
     metrics_addr := ":9090" |}.

Definition main_flags : pflag.FlagSet := list_to_map (flags_of defaults).

(** What command-line parsing and the environment binding leave of the
    flags of [main]: every declared flag is there with a value of its
    type.  The command carries the values [cfg], and maybe flags
    besides. *)
Definition has_config (cmd : cobra.Command) (cfg : Config) : Prop :=
  Forall (λ kv, cobra.Flags cmd !! kv.1 = Some kv.2) (flags_of cfg).

(** The server [NewGrpcProxyServer] builds and the handler
    [NewGrpcWebServer] wraps it in, in closed form. *)
Definition proxy_server (logger : zap.Logger)
    (upstream : option grpc.ClientConn) : grpc.Server :=
  grpc.NewServer
    [ grpc.CustomCodec proxy.Codec;
      grpc.UnknownServiceHandler (proxy.TransparentHandler (director upstream));
      grpc.WithUnaryServerChain
        [grpc.grpczap_Interceptor logger; grpc.grpcprom_Interceptor];
      grpc.WithStreamServerChain
        [grpc.grpczap_Interceptor logger; grpc.grpcprom_Interceptor] ].

Definition web_handler (srv : grpc.Server) (origins : list string)
  : grpcweb.WrappedGrpcServer :=
  {| grpcweb.server := srv;
     grpcweb.corsForRegisteredEndpointsOnly := false;
     grpcweb.originFunc := NewAllowedOriginsFunc origins |}.

(** [rootRun] in closed form, for a command that carries [cfg]. *)
Definition rootRun_outcome (world : World) (cfg : Config) : Outcome unit :=
  let env := os.ExpandEnv (environ world) in
  let logger := if debug cfg then zap.Development else zap.Production in
  let '(upstream, err, evs) :=
    upstream_result world (env (upstream_addr cfg))
      (env (upstream_cert_path cfg)) in
  match err with
  | Some e =>
      Exited 1
        (evs ++ [EvLog logger zap.FatalLevel "failed to connect to upstream"
                   [("error", e)]])
  | None =>
      let origins := strings.Split (env (web_allowed_origins cfg)) "," in
      let websrv :=
        {| http.Addr := env (web_addr cfg);
           http.Handler :=
             Some (web_handler (proxy_server logger upstream) origins) |} in
      let certPath := env (web_cert_path cfg) in
      let keyPath := env (web_key_path cfg) in
      let web :=
        if negb (String.eqb certPath "") && negb (String.eqb keyPath "") then
          [ EvLog logger zap.InfoLevel "grpc-web server listening over HTTPS"
              [("addr", env (web_addr cfg)); ("certPath", certPath);
               ("keyPath", keyPath)];
            EvListenAndServeTLS websrv certPath keyPath ]
        else
          [ EvLog logger zap.InfoLevel "grpc-web server listening over HTTP"
              [("addr", env (web_addr cfg))];
            EvListenAndServe websrv ] in
      Returned tt
        (evs ++
         [ EvEnableTracing; EvReplaceGrpcLogger logger; EvGo web;
           EvLog logger zap.InfoLevel "metrics server listening over HTTP"
             [("addr", env (metrics_addr cfg))];
           EvHandle "/metrics";
           EvListenAndServe
             {| http.Addr := env (metrics_addr cfg); http.Handler := None |};
           EvSync logger ])
  end.

(** ** Observations on a run *)

Definition trace {A} (o : Outcome A) : list Event :=
  match o with
  | Returned _ tr => tr
  | Panicked _ tr => tr
  | Exited _ tr => tr
  end.

(** The HTTP servers an event starts, those of goroutines included. *)
Fixpoint served (e : Event) : list http.Server :=
  match e with
  | EvListenAndServe srv => [srv]
  | EvListenAndServeTLS srv _ _ => [srv]
  | EvGo body => flat_map served body
  | _ => []
  end.

Definition servers (tr : list Event) : list http.Server :=
  flat_map served tr.

(** Modelled from the spec: the message path through the proxy, which is
    code of the proxy library and not of this repository's sources.
    Section 4.4 (StreamPump): a message read on one side is decoded via
    the codec and written to the other side unchanged in order; here the
    codec of the side it arrives on decodes and the codec of the side it
    leaves on encodes. *)
Definition relay (arrive leave : grpc.Codec) (payload : list Byte.byte)
  : list Byte.byte * error :=
  let '(msg, err) := grpc.Unmarshal arrive payload in
  match err with
  | Some _ => ([], err)
  | None => grpc.Marshal leave msg
  end.

(** ** Flags with their change mark, [strconv] and [viper] *)

Module strconv.

(** [strconv.ParseBool(str)]: the value, and whether [str] is one of the
    accepted spellings (otherwise the value is false and the error is not
    nil). *)
Definition ParseBool (str : string) : bool * bool :=
  if bool_decide (str ∈ ["1"; "t"; "T"; "TRUE"; "true"; "True"])
  then (true, true)
  else if bool_decide (str ∈ ["0"; "f"; "F"; "FALSE"; "false"; "False"])
  then (false, true)
  else (false, false).

End strconv.

Module flags.

(** A [*pflag.Flag] as far as this program looks at it: its value and
    whether it was set, which is what [Changed] records. *)
Record Flag := { Value : pflag.Value; Changed : bool }.

(** The flag set of a command after its command line is parsed. *)
Abbreviation FlagSet := (gmap string Flag).

(** [flag.Value.Set(value)]: a string flag takes any value.  A bool flag
    takes what [strconv.ParseBool] returns, the false of a failed parse
    too, and hands on its error.  The second component tells whether the
    error is nil. *)
Definition Value_Set (v : pflag.Value) (value : string) : pflag.Value * bool :=
  match v with
  | pflag.stringValue _ => (pflag.stringValue value, true)
  | pflag.boolValue _ =>
      let '(b, ok) := strconv.ParseBool value in (pflag.boolValue b, ok)
  end.

(** [func (f *FlagSet) Set(name, value string) error]: no such flag is an
    error; otherwise the value is set as above, and the flag is marked
    changed when that gave no error.  The text of the errors is left
    out: the second component tells whether the error is nil. *)
Definition Set_ (fs : FlagSet) (name value : string) : FlagSet * bool :=
  match fs !! name with
  | None => (fs, false)
  | Some flag =>
      let '(v, ok) := Value_Set (Value flag) value in
      if ok then (<[name := {| Value := v; Changed := true |}]> fs, true)
      else (<[name := {| Value := v; Changed := Changed flag |}]> fs, false)
  end.

(** The command [rootRun] and the getters read: the values alone. *)
Definition command_of (fs : FlagSet) : cobra.Command :=
  {| cobra.Flags := Value <$> fs |}.

End flags.

Module viper.

(** A viper instance as [syncViper] uses the one it creates: the
    environment variable bound to each key.  Keys are case-insensitive. *)
Abbreviation Viper := (gmap string string).

Definition New : Viper := ∅.

(** [v.BindEnv(key, envkey)]: with the name of the variable given, it is
    bound as it is, without prefix. *)
Definition BindEnv (v : Viper) (key envkey : string) : Viper :=
  <[strings.ToLower key := envkey]> v.

(** The value a key has: that of its environment variable when the
    variable is set and not empty.  An instance without defaults, config
    file or overrides has no other source. *)
Definition find (environ : gmap string string) (v : Viper) (key : string)
  : option string :=
  envkey ← v !! strings.ToLower key;
  val ← environ !! envkey;
  if String.eqb val "" then None else Some val.

(** [v.IsSet(key)] and [v.Get(key)]. *)
Definition IsSet (environ : gmap string string) (v : Viper) (key : string)
  : bool :=
  bool_decide (is_Some (find environ v key)).

Definition Get (environ : gmap string string) (v : Viper) (key : string)
  : option string :=
  find environ v key.

End viper.

(** ** [main.go]: [syncViper], [rootCmd] and [main] *)

(** The callback [syncViper] passes to [VisitAll], for the flag [f] of
    name [name]; the state is the viper instance and the flag set.
    [fmt.Sprintf("%v", val)] of a string is the string. *)
Definition syncViper_visit (environ : gmap string string) (prefix : string)
    (name : string) (f : flags.Flag) (st : viper.Viper * flags.FlagSet)
  : viper.Viper * flags.FlagSet :=
  let '(v, fs) := st in
  let suffix := strings.ToUpper (strings.ReplaceAll name "-" "_") in
  let v := viper.BindEnv v name (prefix +:+ "_" +:+ suffix) in
  if negb (flags.Changed f) && viper.IsSet environ v name then
    match viper.Get environ v name with
    | Some val => (v, (flags.Set_ fs name val).1)
    | None => (v, fs)
    end
  else (v, fs).

(** [syncViper(cmd, prefix)]: the flags of [cmd] afterwards, and the
    error.  [viper.SetEnvPrefix] acts on the instance of the package,
    which [v] is not, and is left out. *)
Definition syncViper (world : World) (cmd : flags.FlagSet)
    (prefix : string) : flags.FlagSet * error :=
  let v := viper.New in
  let '(_, cmd') :=
    map_fold (syncViper_visit (environ world) prefix) (v, cmd) cmd in
  (cmd', nil_error).

(** [rootCmd] as cobra runs it once the command line is parsed, a
    request for help apart: [PersistentPreRunE], and [Run] when that
    returned no error. *)
Definition rootCmd_execute (world : World) (cmd : flags.FlagSet)
    (args : list string)
  : IO error :=
  let '(cmd', err) := syncViper world cmd "GRPCWEBPROXY" in
  match err with
  | Some e => mret (Some e)
  | None => _ ← rootRun world (flags.command_of cmd') args; mret nil_error
  end.

(** The flags as [main] declares them, none of them changed. *)
Definition main_declared : flags.FlagSet :=
  (λ v, {| flags.Value := v; flags.Changed := false |}) <$> main_flags.

(** Parsing the command line sets flags and declares none (cobra adds
    [help]): every flag of [main] is still there with its type. *)
Definition declared_as (fs : flags.FlagSet) (name : string) (v : pflag.Value)
  : bool :=
  match fs !! name with
  | Some f => bool_decide (pflag.Type_ (flags.Value f) = pflag.Type_ v)
  | None => false
  end.

Definition declares_main (fs : flags.FlagSet) : Prop :=
  map_Forall (λ name v, declared_as fs name v = true) main_flags.

(** The variable [syncViper] binds to a flag. *)
Definition env_name (prefix name : string) : string :=
  prefix +:+ "_" +:+ strings.ToUpper (strings.ReplaceAll name "-" "_").

(** What [syncViper] makes of one flag, in closed form: a flag that was
    set stays; one that was not takes the value of its variable when that
    is set and not empty. *)
Definition synced_flag (environ : gmap string string) (prefix : string)
    (name : string) (f : flags.Flag) : flags.Flag :=
  if flags.Changed f then f
  else
    match environ !! env_name prefix name with
    | Some val =>
        if String.eqb val "" then f
        else
          let '(v, ok) := flags.Value_Set (flags.Value f) val in
          {| flags.Value := v; flags.Changed := ok |}
    | None => f
    end.

(** The options [NewUpstreamConnection] dials with, in closed form. *)
Definition dial_options (certPath : string) : list grpc.DialOption :=
  [ if String.eqb certPath "" then grpc.WithInsecure
    else grpc.WithTransportCredentials
           (Some {| grpc.certFile := certPath; grpc.serverName := "" |});
    grpc.WithCodec proxy.Codec ].

(** The Dial of the world is the Dial of the library. *)
Definition dials_like_grpc (world : World) : Prop :=
  ∀ target opts, dialFault world target opts = grpc.dialError opts.

(** ** More observations on a run *)

(** The messages of the fatal log entries of an event. *)
Fixpoint fatal_of (e : Event) : list string :=
  match e with
  | EvLog _ zap.FatalLevel msg _ => [msg]
  | EvGo body => flat_map fatal_of body
  | _ => []
  end.

Definition fatal_messages (tr : list Event) : list string :=
  flat_map fatal_of tr.

(** The servers an event starts, each with its key pair when it serves
    TLS. *)
Fixpoint listens_of (e : Event) : list (http.Server * option (string * string)) :=
  match e with
  | EvListenAndServe srv => [(srv, None)]
  | EvListenAndServeTLS srv certFile keyFile => [(srv, Some (certFile, keyFile))]
  | EvGo body => flat_map listens_of body
  | _ => []
  end.

Definition listens (tr : list Event)
  : list (http.Server * option (string * string)) :=
  flat_map listens_of tr.

(** The loggers an event names. *)
Fixpoint loggers_of (e : Event) : list zap.Logger :=
  match e with
  | EvLog logger _ _ _ => [logger]
  | EvSync logger => [logger]
  | EvReplaceGrpcLogger logger => [logger]
  | EvGo body => flat_map loggers_of body
  | _ => []
  end.

Definition loggers (tr : list Event) : list zap.Logger :=
  flat_map loggers_of tr.

(** ** Auxiliary functions *)

(** The length of the longest string of a list, and a string of a given
    length. *)
Fixpoint longest (l : list string) : nat :=
  match l with
  | [] => 0
  | x :: l' => String.length x `max` longest l'
  end.

Fixpoint dashes (n : nat) : string :=
  match n with
  | 0 => EmptyString
  | S n' => String "-" (dashes n')
  end.

(** Every byte of a string passes a test. *)
Fixpoint all_chars (p : ascii → bool) (s : string) : bool :=
  match s with
  | EmptyString => true
  | String c s' => p c && all_chars p s'
  end.

(** Every byte of the string is an ASCII character. *)
Definition is_ascii (s : string) : bool :=
  all_chars (λ c, N.ltb (N_of_ascii c) 128) s.

(** The string begins with an alphanumeric byte. *)
Definition starts_alnum (s : string) : bool :=
  match s with
  | String c _ => os.isAlphaNum c
  | EmptyString => false
  end.

(** The names [os.Expand] reads after a bare dollar sign: alphanumerics
    that do not begin with a digit. *)
Definition plain_name (name : string) : bool :=
  match name with
  | String c _ => negb (os.isShellSpecialVar c) && all_chars os.isAlphaNum name
  | EmptyString => false
  end.

(** The names it reads between braces: not empty, without closing
    brace. *)
Definition braced_name (name : string) : bool :=
  negb (String.eqb name "") &&
  all_chars (λ c, negb (Ascii.eqb c "}")) name.

Definition no_dollar (s : string) : bool :=
  all_chars (λ c, negb (Ascii.eqb c "$")) s.

(** ** Example inputs *)

(** A call from a browser: both reserved keys and a key with several
    values, one of them twice. *)
Definition browser_md : MD :=
  {[ "user-agent" := ["grpc-web-javascript/0.1"];
     "connection" := ["keep-alive"];
     "x-trace" := ["b"; "a"; "b"] ]}.

Definition browser_ctx : Context :=
  timerCtx (valueCtx Background mdIncomingKey (VMD (mdAt 0))) 7 1500.

(** The director without a backend, run on that call. *)
Definition browser_call : Context * option grpc.ClientConn * error * Heap :=
  director None browser_ctx "/pkg.Svc/Call" [browser_md].

(** A world without faults and with an empty environment, and the command
    as [main] declares it. *)
Definition quiet_world : World :=
  {| environ := ∅; certFault := λ _, None; dialFault := λ _ _, None |}.

(** The world as the grpc library makes it, for an environment, a file
    system and a network: [listening] tells at which targets a backend
    accepts connections.  Dial does not wait to find out. *)
Definition grpc_world (environ : gmap string string)
    (certFault : string → error) (listening : string → bool) : World :=
  {| environ := environ; certFault := certFault;
     dialFault := λ _ opts, grpc.dialError opts |}.

(** No backend anywhere; and no certificate file anywhere. *)
Definition nothing_listens : string → bool := λ _, false.

Definition down_world : World :=
  grpc_world ∅ (λ _, None) nothing_listens.

Definition missing_cert_world : World :=
  grpc_world ∅
    (λ path, Some ("open " +:+ path +:+ ": no such file or directory"))
    nothing_listens.

(** The command with a certificate for the upstream. *)
Definition tls_config : Config :=
  {| debug := false;
     upstream_addr := "backend:443";
     upstream_cert_path := "/etc/upstream-ca.pem";
     web_addr := ":80";
     web_key_path := "";
     web_cert_path := "";
     web_allowed_origins := "";
     metrics_addr := ":9090" |}.

Definition tls_cmd : cobra.Command :=
  {| cobra.Flags := list_to_map (flags_of tls_config) |}.

Definition main_cmd : cobra.Command := {| cobra.Flags := main_flags |}.

Definition insecure_conn : grpc.ClientConn :=
  {| grpc.target := "127.0.0.1:50051";
     grpc.dopts := [grpc.WithInsecure; grpc.WithCodec proxy.Codec] |}.

Definition default_web_server : http.Server :=
  {| http.Addr := ":80";
     http.Handler :=
       Some (web_handler (proxy_server zap.Production (Some insecure_conn))
               [""]) |}.

(** A deployment that names its upstream through the environment. *)
Definition deploy_world : World :=
  {| environ := {[ "UPSTREAM_HOST" := "backend"; "PORT" := "50051" ]};
     certFault := λ _, None;
     dialFault := λ _ _, None |}.

Definition deploy_cmd : cobra.Command :=
  {| cobra.Flags :=
       <[ "upstream-addr" := pflag.stringValue "${UPSTREAM_HOST}:$PORT" ]>
         main_flags |}.

(** * Properties *)

(** ** The store of metadata maps *)

Section store.
Implicit Types (h : Heap) (r : MDref) (m : MD) (k : string).

Lemma join_into_empty m : metadata.join_into ∅ m = m.
Proof. unfold metadata.join_into. by rewrite (left_id ∅ _). Qed.

(** [Copy] allocates one map with the content of its receiver and leaves
    every map of the store as it was. *)
Lemma Copy_spec r h :
  metadata.Copy r h = (mdAt (length h), h ++ [deref h r]).
Proof.
  unfold metadata.Copy, metadata.Join, alloc; cbn [foldl].
  by rewrite join_into_empty.
Qed.

Lemma delete_key_fresh m k h :
  delete_key (mdAt (length h)) k (h ++ [m]) = (tt, h ++ [delete k m]).
Proof.
  unfold delete_key. f_equal.
  rewrite alter_app_r_alt, Nat.sub_diag by lia. done.
Qed.

End store.

(** ** The director *)

(** The director in closed form: the outgoing context is the incoming one
    with one more value, the connection is the captured one, the error is
    nil, and the store grows by the stripped copy of the incoming map. *)
Lemma director_eq upstream ctx method h :
  director upstream ctx method h =
    (valueCtx ctx mdOutgoingKey (VrawMD (mdAt (length h))),
     upstream, nil_error,
     h ++ [delete "connection" (delete "user-agent" (incoming_metadata ctx h))]).
Proof.
  unfold director, incoming_metadata.
  destruct (metadata.FromIncomingContext ctx) as [metadataIn ok]; simpl.
  unfold mbind, St_mbind, St_bind, mret, St_mret, St_ret.
  rewrite Copy_spec, !delete_key_fresh. done.
Qed.

Lemma outgoing_metadata_director ctx (h : Heap) (m : MD) :
  outgoing_metadata (valueCtx ctx mdOutgoingKey (VrawMD (mdAt (length h))))
    (h ++ [m]) = m.
Proof.
  unfold outgoing_metadata, metadata.outgoing_ref; cbn [Value].
  rewrite decide_True by done. unfold deref.
  by rewrite lookup_app_r, Nat.sub_diag by lia.
Qed.

(** C1.  For every incoming metadata map, whether or not it has the keys
    [user-agent] and [connection], the outgoing metadata of the director
    has neither key, and every other key has exactly the values it came
    with, in the same order. *)
Theorem director_strips_reserved_keys upstream ctx method h ctx' conn err h' :
  director upstream ctx method h = (ctx', conn, err, h') →
  outgoing_metadata ctx' h' !! "user-agent" = None ∧
  outgoing_metadata ctx' h' !! "connection" = None ∧
  ∀ k, k ≠ "user-agent" → k ≠ "connection" →
    outgoing_metadata ctx' h' !! k = incoming_metadata ctx h !! k.
Proof.
  rewrite director_eq. intros [= <- _ _ <-].
  rewrite outgoing_metadata_director. split_and!.
  - rewrite lookup_delete_ne by done. apply lookup_delete_eq.
  - apply lookup_delete_eq.
  - intros k Hua Hc. by rewrite !lookup_delete_ne.
Qed.

Lemma director_strips_reserved_keys_witness :
  outgoing_metadata browser_call.1.1.1 browser_call.2 !! "x-trace"
    = Some ["b"; "a"; "b"] ∧
  outgoing_metadata browser_call.1.1.1 browser_call.2 !! "user-agent" = None ∧
  outgoing_metadata browser_call.1.1.1 browser_call.2 !! "connection" = None.
Proof.
  destruct (director_strips_reserved_keys None browser_ctx "/pkg.Svc/Call"
              [browser_md] browser_call.1.1.1 browser_call.1.1.2
              browser_call.1.2 browser_call.2)
    as (Hua & Hc & Hk).
  - vm_compute. reflexivity.
  - split_and!; [|exact Hua|exact Hc].
    rewrite (Hk "x-trace") by done. vm_compute. reflexivity.
Defined.

(** C4.  Whatever the context and the method name, the director hands out
    the one connection it was built with; every call gets that same
    connection.  Its only effect is the copy of the metadata: one new map
    in the store, every map that was there unchanged, the incoming
    metadata of the call among them. *)
Theorem director_single_backend upstream ctx method h ctx' conn err h' :
  director upstream ctx method h = (ctx', conn, err, h') →
  conn = upstream ∧
  (∀ ctx2 method2 h2, (director upstream ctx2 method2 h2).1.1.2 = conn) ∧
  (∃ md, h' = h ++ [md]) ∧
  (∀ l m, h !! l = Some m → h' !! l = Some m) ∧
  incoming_metadata ctx h' = incoming_metadata ctx h.
Proof.
  rewrite director_eq. intros [= <- <- _ <-]. split_and!.
  - done.
  - intros. by rewrite director_eq.
  - eauto.
  - intros l m Hl. rewrite lookup_app_l; [done|]. by eapply lookup_lt_Some.
  - unfold incoming_metadata.
    destruct (metadata.FromIncomingContext ctx) as [[|l] ok]; [done|].
    cbn [fst deref].
    destruct (h !! l) as [m|] eqn:Hl.
    + rewrite lookup_app_l, Hl; [done|]. by eapply lookup_lt_Some.
    + apply lookup_ge_None in Hl.
      destruct (decide (l = length h)) as [->|Hne].
      * rewrite lookup_app_r, Nat.sub_diag by lia. cbn.
        apply map_eq; intros k. rewrite lookup_empty.
        destruct (decide (k = "connection")) as [->|];
          [apply lookup_delete_eq|].
        rewrite lookup_delete_ne by done.
        destruct (decide (k = "user-agent")) as [->|];
          [apply lookup_delete_eq|].
        by rewrite lookup_delete_ne.
      * rewrite (proj2 (lookup_ge_None _ _)); [done|].
        rewrite length_app; cbn; lia.
Qed.

Lemma director_single_backend_witness :
  browser_call.1.1.2 = None ∧ ∃ md, browser_call.2 = [browser_md] ++ [md].
Proof.
  destruct (director_single_backend None browser_ctx "/pkg.Svc/Call"
              [browser_md] browser_call.1.1.1 browser_call.1.1.2
              browser_call.1.2 browser_call.2)
    as (Hconn & _ & Hmd & _).
  - vm_compute. reflexivity.
  - split; [exact Hconn|exact Hmd].
Defined.

(** C5.  The context the director returns is the incoming context with one
    value added under the key of the outgoing metadata.  Deadline, done
    channel and error are those of the incoming context, and so is every
    value under another key. *)
Theorem director_context_derived upstream ctx method h ctx' conn err h' :
  director upstream ctx method h = (ctx', conn, err, h') →
  (∃ v, ctx' = WithValue ctx mdOutgoingKey v) ∧
  Deadline ctx' = Deadline ctx ∧
  Done ctx' = Done ctx ∧
  (∀ closed, Err ctx' closed = Err ctx closed) ∧
  (∀ key, key ≠ mdOutgoingKey → Value ctx' key = Value ctx key).
Proof.
  rewrite director_eq. intros [= <- _ _ _]. split_and!; try done.
  - by eexists.
  - intros key Hkey. cbn. by rewrite decide_False.
Qed.

Lemma director_context_derived_witness :
  Deadline browser_call.1.1.1 = Some 1500%Z ∧
  Done browser_call.1.1.1 = Some 7.
Proof.
  destruct (director_context_derived None browser_ctx "/pkg.Svc/Call"
              [browser_md] browser_call.1.1.1 browser_call.1.1.2
              browser_call.1.2 browser_call.2)
    as (_ & Hdl & Hdone & _).
  - vm_compute. reflexivity.
  - split; [rewrite Hdl|rewrite Hdone]; reflexivity.
Defined.

(** ** The CORS origin predicate *)

Lemma SliceContains_elem (ys : list string) (x : string) :
  stringz.SliceContains ys x = true ↔ x ∈ ys.
Proof.
  induction ys as [|y ys IH]; cbn.
  - split; [done|]. by intros ?%elem_of_nil.
  - destruct (String.eqb_spec x y) as [->|Hne].
    + split; [intros _; left|done].
    + rewrite IH, elem_of_cons. split; [by right|]. by intros [?|?].
Qed.

Lemma SliceEqual_eq (xs ys : list string) :
  stringz.SliceEqual xs ys = true ↔ xs = ys.
Proof.
  revert ys. induction xs as [|x xs IH]; intros [|y ys]; cbn; try done.
  destruct (String.eqb_spec x y) as [->|Hne].
  - rewrite IH. split; [by intros ->|by intros [= ->]].
  - split; [done|]. by intros [= ? ?].
Qed.

(** Off the allow-all list the predicate is membership. *)
Lemma NewAllowedOriginsFunc_other urls origin :
  urls ≠ [""] →
  NewAllowedOriginsFunc urls origin = stringz.SliceContains urls origin.
Proof.
  intros Hne. unfold NewAllowedOriginsFunc.
  destruct (stringz.SliceEqual urls [""]) eqn:Heq; [|done].
  by apply SliceEqual_eq in Heq.
Qed.

Lemma length_dashes n : String.length (dashes n) = n.
Proof. induction n; cbn; congruence. Qed.

Lemma longest_bound (l : list string) x : x ∈ l → String.length x ≤ longest l.
Proof.
  induction 1 as [x l|x y l _ IH]; cbn; lia.
Qed.

(** No list holds every string: one longer than all its elements is
    missing. *)
Lemma some_origin_missing (l : list string) : dashes (S (longest l)) ∉ l.
Proof.
  intros Hin%longest_bound. rewrite length_dashes in Hin. lia.
Qed.

Example Split_pieces :
  strings.Split "https://a.test,https://b.test" ","
    = ["https://a.test"; "https://b.test"] ∧
  strings.Split "a,,b," "," = ["a"; ""; "b"; ""] ∧
  strings.Split "https://a.test" "," = ["https://a.test"] ∧
  strings.Split "" "," = [""].
Proof. split_and!; reflexivity. Qed.

(** Splitting never yields the empty list, and yields one empty piece
    for the empty string only. *)
Lemma Split_nonempty s sep : strings.Split s sep ≠ [].
Proof.
  destruct s as [|c s]; cbn; [done|].
  destruct (Ascii.eqb c sep); [done|].
  by destruct (strings.Split s sep).
Qed.

Lemma Split_single_empty s sep : strings.Split s sep = [""] ↔ s = "".
Proof.
  split; [|by intros ->].
  destruct s as [|c s]; [done|]. cbn.
  destruct (Ascii.eqb c sep).
  - intros [= Hs]. by apply Split_nonempty in Hs.
  - by destruct (strings.Split s sep).
Qed.

(** ** Expansion of environment references *)

Example ExpandEnv_references :
  let env : gmap string string := {[ "HOME" := "/root"; "X_1" := "v" ]} in
  os.ExpandEnv env "a$HOME/b" = "a/root/b" ∧
  os.ExpandEnv env "${HOME}x${X_1}$X_1-$" = "/rootxvv-$" ∧
  os.ExpandEnv env "$UNSET:${UNSET}." = ":." ∧
  os.ExpandEnv env "${}a${b$ c$$d$1x${" = "ab$ cdx" ∧
  os.ExpandEnv env "no reference" = "no reference".
Proof. split_and!; vm_compute; reflexivity. Qed.

Section expand.
Variable mapping : string → string.
Implicit Types (s name pre post : string) (c : ascii).

Lemma length_drop_le n s : String.length (os.drop n s) ≤ String.length s.
Proof.
  revert s. induction n as [|n IH]; intros [|c s]; cbn; try lia.
  specialize (IH s). lia.
Qed.

(** Fuel beyond the length of the string changes nothing. *)
Lemma expand_fuel fuel fuel' s :
  String.length s ≤ fuel → String.length s ≤ fuel' →
  os.expand fuel mapping s = os.expand fuel' mapping s.
Proof.
  revert fuel' s. induction fuel as [|fuel IH]; intros fuel' s Hf Hf'.
  - destruct s; cbn in Hf; [|lia]. by destruct fuel'.
  - destruct s as [|c rest]; [by destruct fuel'|].
    destruct fuel' as [|fuel']; cbn in Hf, Hf'; [lia|]. cbn [os.expand].
    destruct (Ascii.eqb c "$" && negb (String.eqb rest "")).
    + destruct (os.getShellName rest) as [name w].
      pose proof (length_drop_le w rest).
      f_equal. apply IH; lia.
    + f_equal. apply IH; lia.
Qed.

(** One round of the loop of [os.Expand]. *)
Lemma Expand_cons c rest :
  os.Expand (String c rest) mapping =
    if Ascii.eqb c "$" && negb (String.eqb rest "") then
      let '(name, w) := os.getShellName rest in
      (if String.eqb name "" then if (0 <? w)%nat then "" else "$"
       else mapping name) +:+ os.Expand (os.drop w rest) mapping
    else String c (os.Expand rest mapping).
Proof.
  unfold os.Expand. cbn [String.length os.expand].
  destruct (Ascii.eqb c "$" && negb (String.eqb rest "")); [|done].
  destruct (os.getShellName rest) as [name w].
  pose proof (length_drop_le w rest).
  f_equal. apply expand_fuel; lia.
Qed.

Lemma append_cons c s1 s2 : String c s1 +:+ s2 = String c (s1 +:+ s2).
Proof. reflexivity. Qed.

Lemma append_nil_l s : "" +:+ s = s.
Proof. reflexivity. Qed.

(** Bytes before the first dollar sign are copied. *)
Lemma Expand_prefix pre s :
  no_dollar pre = true →
  os.Expand (pre +:+ s) mapping = pre +:+ os.Expand s mapping.
Proof.
  induction pre as [|c pre IH]; [done|]. unfold no_dollar in *. cbn.
  intros [Hc Hpre]%andb_prop. rewrite !append_cons, Expand_cons.
  apply negb_true_iff in Hc. rewrite Hc. cbn. by rewrite IH.
Qed.

Lemma drop_append name s : os.drop (String.length name) (name +:+ s) = s.
Proof. induction name as [|c name IH]; [by destruct s|done]. Qed.

Lemma take_append name s : os.take (String.length name) (name +:+ s) = name.
Proof.
  induction name as [|c name IH]; [by destruct s|].
  cbn. rewrite append_cons. by rewrite IH.
Qed.

Lemma index_brace name s :
  all_chars (λ c, negb (Ascii.eqb c "}")) name = true →
  os.index "}" (name +:+ String "}" s) = Some (String.length name).
Proof.
  induction name as [|c name IH]; [done|]. cbn.
  intros [Hc Hname]%andb_prop. apply negb_true_iff in Hc.
  rewrite append_cons. cbn. by rewrite Hc, IH.
Qed.

Lemma alnum_prefix_append name s :
  all_chars os.isAlphaNum name = true → starts_alnum s = false →
  os.alnum_prefix (name +:+ s) = String.length name.
Proof.
  intros Hname Hs. induction name as [|c name IH].
  - destruct s as [|c s]; [done|].
    cbn [starts_alnum] in Hs. rewrite append_nil_l.
    cbn [os.alnum_prefix]. by rewrite Hs.
  - cbn [all_chars] in Hname. apply andb_prop in Hname as [Hc Hname].
    rewrite append_cons. cbn [os.alnum_prefix String.length].
    by rewrite Hc, IH.
Qed.

(** The name between braces. *)
Lemma getShellName_braced name s :
  braced_name name = true →
  os.getShellName (String "{" (name +:+ String "}" s))
    = (name, String.length name + 2).
Proof.
  unfold braced_name. intros [Hne Hname]%andb_prop.
  destruct name as [|c1 name]; [done|]. clear Hne.
  pose proof (index_brace _ s Hname) as Hidx.
  pose proof (take_append (String c1 name) (String "}" s)) as Htake.
  unfold os.getShellName. rewrite Hidx. cbn [Ascii.eqb Bool.eqb].
  destruct name as [|c2 name].
  - change (String c1 "" +:+ String "}" s) with (String c1 (String "}" s)).
    cbn [os.special_in_braces os.take String.length Nat.add].
    by destruct (_ && _).
  - cbn [all_chars] in Hname.
    apply andb_prop in Hname as [_ [Hc2 _]%andb_prop].
    apply negb_true_iff in Hc2.
    replace (os.special_in_braces (String c1 (String c2 name) +:+ String "}" s))
      with false.
    + by rewrite Htake.
    + rewrite !append_cons. cbn [os.special_in_braces].
      by rewrite Hc2, andb_false_r.
Qed.

(** The name after a bare dollar sign. *)
Lemma getShellName_plain name s :
  plain_name name = true → starts_alnum s = false →
  os.getShellName (name +:+ s) = (name, String.length name).
Proof.
  unfold plain_name. destruct name as [|c name]; [done|].
  intros [Hc Hname]%andb_prop Hs. apply negb_true_iff in Hc.
  pose proof (alnum_prefix_append _ s Hname Hs) as Hlen.
  pose proof (take_append (String c name) s) as Htake.
  cbn [all_chars] in Hname. apply andb_prop in Hname as [Hal _].
  unfold os.getShellName. rewrite append_cons, Hc.
  rewrite <- append_cons, Hlen, Htake.
  destruct (Ascii.eqb_spec c "{") as [->|_]; [discriminate Hal|done].
Qed.

Lemma drop_braced name c d post :
  os.drop (String.length name + 2) (String c (name +:+ String d post)) = post.
Proof.
  revert c. induction name as [|c' name IH]; intros c; [done|].
  rewrite append_cons. cbn [String.length Nat.add os.drop]. apply IH.
Qed.

(** What [os.Expand] does with a reference in braces and with a bare
    one. *)
Lemma Expand_braced name post :
  braced_name name = true →
  os.Expand ("${" +:+ name +:+ "}" +:+ post) mapping
    = mapping name +:+ os.Expand post mapping.
Proof.
  intros Hname.
  change ("${" +:+ name +:+ "}" +:+ post)
    with (String "$" (String "{" (name +:+ String "}" post))).
  rewrite Expand_cons. cbn [Ascii.eqb Bool.eqb String.eqb negb andb].
  rewrite (getShellName_braced _ _ Hname).
  unfold braced_name in Hname. apply andb_prop in Hname as [Hne _].
  apply negb_true_iff in Hne. rewrite Hne.
  by rewrite drop_braced.
Qed.

Lemma Expand_plain name post :
  plain_name name = true → starts_alnum post = false →
  os.Expand ("$" +:+ name +:+ post) mapping
    = mapping name +:+ os.Expand post mapping.
Proof.
  intros Hname Hpost.
  change ("$" +:+ name +:+ post) with (String "$" (name +:+ post)).
  rewrite Expand_cons. rewrite (getShellName_plain _ _ Hname Hpost).
  rewrite drop_append.
  destruct name as [|c name]; [done|]. by rewrite append_cons.
Qed.

End expand.

(** ** Start-up *)

Section startup.
Variable world : World.
Implicit Types (cmd : cobra.Command) (tr : list Event).

Lemma MustGetString_eq cmd key tr :
  MustGetString world cmd key tr =
    match cobra.Flags cmd !! key with
    | Some (pflag.stringValue s) =>
        Returned (os.ExpandEnv (environ world) s) tr
    | Some (pflag.boolValue _) =>
        Panicked ("failed to find flag " +:+ key +:+ ": " +:+
                  "trying to get string value of flag of type bool") tr
    | None =>
        Panicked ("failed to find flag " +:+ key +:+ ": " +:+
                  "flag accessed but not defined: " +:+ key) tr
    end.
Proof.
  unfold MustGetString, pflag.GetString.
  by destruct (cobra.Flags cmd !! key) as [[s|b]|].
Qed.

Lemma MustGetBool_eq cmd key tr :
  MustGetBool cmd key tr =
    match cobra.Flags cmd !! key with
    | Some (pflag.boolValue b) => Returned b tr
    | Some (pflag.stringValue _) =>
        Panicked ("failed to find flag " +:+ key +:+ ": " +:+
                  "trying to get bool value of flag of type string") tr
    | None =>
        Panicked ("failed to find flag " +:+ key +:+ ": " +:+
                  "flag accessed but not defined: " +:+ key) tr
    end.
Proof.
  unfold MustGetBool, pflag.GetBool.
  by destruct (cobra.Flags cmd !! key) as [[s|b]|].
Qed.

Lemma NewUpstreamConnection_eq addr certPath tr :
  NewUpstreamConnection world addr certPath tr =
    let '(conn, err, evs) := upstream_result world addr certPath in
    Returned (conn, err) (tr ++ evs).
Proof.
  unfold NewUpstreamConnection, upstream_result, NewClientTLSFromFile, Dial.
  unfold mbind, IO_mbind, IO_bind, mret, IO_mret, IO_ret, emit.
  destruct (negb (String.eqb certPath "")); simpl.
  - destruct (certFault world certPath); simpl; [done|].
    destruct (dialFault world addr _); simpl; by rewrite <- app_assoc.
  - by destruct (dialFault world addr _).
Qed.

Lemma has_config_lookup cmd cfg name v :
  has_config cmd cfg → (name, v) ∈ flags_of cfg →
  cobra.Flags cmd !! name = Some v.
Proof.
  unfold has_config. rewrite Forall_forall. intros H Hin. exact (H _ Hin).
Qed.

(** One step of a run: the next flag is read from its known value, and
    the monad's plumbing is reduced. *)
Ltac io_reduce :=
  cbv beta iota delta
    [mbind IO_mbind IO_bind mret IO_mret IO_ret emit panic Exit
     fatal_on Fatal Info defer go nil_error].

Ltac read_flag :=
  rewrite MustGetString_eq;
  match goal with
  | H : cobra.Flags ?cmd !! ?key = Some _
    |- context [cobra.Flags ?cmd !! ?key] => rewrite H
  end;
  io_reduce.

Lemma rootRun_eq cmd args cfg :
  has_config cmd cfg →
  rootRun world cmd args [] = rootRun_outcome world cfg.
Proof.
  intros Hc. unfold has_config, flags_of in Hc.
  repeat (apply Forall_cons in Hc as [? Hc]). cbn [fst snd] in *.
  unfold rootRun, serveWeb, rootRun_outcome.
  io_reduce. rewrite MustGetBool_eq.
  match goal with H : _ !! "debug" = _ |- _ => rewrite H end.
  io_reduce. do 2 read_flag.
  rewrite NewUpstreamConnection_eq.
  destruct (upstream_result world _ _) as [[upstream err] evs].
  io_reduce. destruct err as [e|]; [done|].
  unfold NewGrpcProxyServer, NewGrpcWebServer. io_reduce.
  repeat read_flag.
  destruct (negb _ && negb _); repeat read_flag;
    rewrite <- !app_assoc; reflexivity.
Qed.

Lemma upstream_result_cases addr certPath conn err evs :
  upstream_result world addr certPath = (conn, err, evs) →
  servers evs = [] ∧
  ((∃ e, conn = None ∧ err = Some e) ∨
   (∃ opts, conn = Some {| grpc.target := addr; grpc.dopts := opts |} ∧
      err = nil_error ∧ dialFault world addr opts = None ∧
      last opts = Some (grpc.WithCodec proxy.Codec))).
Proof.
  unfold upstream_result.
  destruct (negb (String.eqb certPath "")).
  - destruct (certFault world certPath).
    + intros [= <- <- <-]. split; [done|]. left. by eexists.
    + destruct (dialFault world addr _) eqn:Hd; intros [= <- <- <-].
      * split; [done|]. left. by eexists.
      * split; [done|]. right. by eexists.
  - destruct (dialFault world addr _) eqn:Hd; intros [= <- <- <-].
    + split; [done|]. left. by eexists.
    + split; [done|]. right. by eexists.
Qed.

Lemma servers_app tr1 tr2 : servers (tr1 ++ tr2) = servers tr1 ++ servers tr2.
Proof. apply flat_map_app. Qed.

(** The servers [rootRun] starts: none when the upstream connection
    fails, else the grpc-web server and the metrics server. *)
Lemma rootRun_outcome_servers cfg :
  servers (trace (rootRun_outcome world cfg)) =
    let env := os.ExpandEnv (environ world) in
    let logger := if debug cfg then zap.Development else zap.Production in
    let '(upstream, err, _) :=
      upstream_result world (env (upstream_addr cfg))
        (env (upstream_cert_path cfg)) in
    match err with
    | Some _ => []
    | None =>
        [ {| http.Addr := env (web_addr cfg);
             http.Handler :=
               Some (web_handler (proxy_server logger upstream)
                       (strings.Split (env (web_allowed_origins cfg)) ",")) |};
          {| http.Addr := env (metrics_addr cfg); http.Handler := None |} ]
    end.
Proof.
  unfold rootRun_outcome. cbv zeta.
  destruct (upstream_result world _ _) as [[upstream err] evs] eqn:Hup.
  apply upstream_result_cases in Hup as [Hevs _].
  destruct err as [e|]; cbn [trace]; rewrite servers_app, Hevs; [done|].
  by destruct (negb _ && negb _).
Qed.

(** Every handler [rootRun] serves is the wrapped proxy server, built
    around the connection [NewUpstreamConnection] returned without error
    and around the split of the origins flag. *)
Lemma rootRun_served_handler cmd args cfg srv w :
  has_config cmd cfg →
  srv ∈ servers (trace (rootRun world cmd args [])) →
  http.Handler srv = Some w →
  ∃ logger upstream evs,
    upstream_result world
      (os.ExpandEnv (environ world) (upstream_addr cfg))
      (os.ExpandEnv (environ world) (upstream_cert_path cfg))
      = (upstream, nil_error, evs) ∧
    w = web_handler (proxy_server logger upstream)
          (strings.Split
             (os.ExpandEnv (environ world) (web_allowed_origins cfg)) ",").
Proof.
  intros Hc Hin Hw. rewrite (rootRun_eq _ _ _ Hc) in Hin.
  rewrite rootRun_outcome_servers in Hin. cbv zeta in Hin.
  destruct (upstream_result world _ _) as [[upstream err] evs].
  destruct err as [e|]; [by apply elem_of_nil in Hin|].
  apply elem_of_cons in Hin as [->|Hin].
  - cbn in Hw. injection Hw as <-. by eexists _, _, _.
  - apply list_elem_of_singleton in Hin as ->. discriminate.
Qed.

End startup.

Example rootRun_defaults :
  servers (trace (rootRun quiet_world main_cmd [] []))
    = [ default_web_server;
        {| http.Addr := ":9090"; http.Handler := None |} ] ∧
  servers (trace (rootRun missing_cert_world tls_cmd [] [])) = [] ∧
  rootRun quiet_world {| cobra.Flags := delete "metrics-addr" main_flags |} [] []
    = Panicked
        "failed to find flag metrics-addr: flag accessed but not defined: metrics-addr"
        [ EvDial "127.0.0.1:50051"; EvEnableTracing;
          EvReplaceGrpcLogger zap.Production;
          EvGo [ EvLog zap.Production zap.InfoLevel
                   "grpc-web server listening over HTTP" [("addr", ":80")];
                 EvListenAndServe default_web_server ];
          EvSync zap.Production ].
Proof. split_and!; vm_compute; reflexivity. Qed.

(** ** Claims on the origin predicate *)

(** C2, as the code has it.  The allow-all list is the one-element list
    of the empty string, which is what an unset flag splits into: with it
    every origin is allowed, the empty origin too.  With the list
    ["https://a.test"], "https://a.test" is allowed and "https://b.test"
    is not.  For every list other than the allow-all one an origin is
    allowed exactly when it is an element of the list. *)
Theorem allowed_origins_sentinel_or_member :
  (∀ origin, NewAllowedOriginsFunc (strings.Split "" ",") origin = true) ∧
  NewAllowedOriginsFunc [""] "" = true ∧
  NewAllowedOriginsFunc ["https://a.test"] "https://a.test" = true ∧
  NewAllowedOriginsFunc ["https://a.test"] "https://b.test" = false ∧
  (∀ urls origin, urls ≠ [""] →
     (NewAllowedOriginsFunc urls origin = true ↔ origin ∈ urls)).
Proof.
  split_and!; try done.
  intros urls origin Hne.
  by rewrite NewAllowedOriginsFunc_other, SliceContains_elem.
Qed.

(** C2 as stated fails twice: the list without elements allows nothing,
    and the non-empty list [""] allows an origin that is not in it. *)
Lemma empty_allow_list_rejects :
  NewAllowedOriginsFunc [] "https://a.test" = false ∧
  NewAllowedOriginsFunc [] "" = false ∧
  NewAllowedOriginsFunc [""] "https://a.test" = true ∧
  "https://a.test" ∉ [""].
Proof.
  split_and!; try reflexivity.
  intros Hin. apply list_elem_of_singleton in Hin. discriminate.
Qed.

(** C3.  The predicate allows every origin exactly when the list is the
    one-element list of the empty string; for every other list it is
    membership in the list.  That list is what splitting the empty string
    at commas gives, and splitting no other string gives it.  The
    predicate of every grpc-web server [rootRun] starts is built from the
    split of the origins flag. *)
Theorem allow_all_iff_single_empty (urls : list string) :
  ((∀ origin, NewAllowedOriginsFunc urls origin = true) ↔ urls = [""]) ∧
  (urls ≠ [""] →
     ∀ origin, NewAllowedOriginsFunc urls origin =
                 stringz.SliceContains urls origin ∧
               (NewAllowedOriginsFunc urls origin = true ↔ origin ∈ urls)) ∧
  (∀ s, strings.Split s "," = [""] ↔ s = "") ∧
  (∀ world cmd args cfg srv w,
     has_config cmd cfg →
     srv ∈ servers (trace (rootRun world cmd args [])) →
     http.Handler srv = Some w →
     grpcweb.originFunc w =
       NewAllowedOriginsFunc
         (strings.Split
            (os.ExpandEnv (environ world) (web_allowed_origins cfg)) ",")).
Proof.
  split_and!.
  - split; [|by intros ->].
    intros Hall. destruct (decide (urls = [""])) as [|Hne]; [done|].
    specialize (Hall (dashes (S (longest urls)))).
    rewrite NewAllowedOriginsFunc_other, SliceContains_elem in Hall by done.
    by apply some_origin_missing in Hall.
  - intros Hne origin.
    by rewrite NewAllowedOriginsFunc_other, SliceContains_elem.
  - intros s. apply Split_single_empty.
  - intros world cmd args cfg srv w Hc Hin Hw.
    destruct (rootRun_served_handler world cmd args cfg srv w Hc Hin Hw)
      as (logger & upstream & evs & _ & ->).
    reflexivity.
Qed.

Lemma allow_all_iff_single_empty_witness :
  NewAllowedOriginsFunc ["https://a.test"; "https://c.test"] "https://c.test"
    = stringz.SliceContains ["https://a.test"; "https://c.test"] "https://c.test".
Proof.
  destruct (allow_all_iff_single_empty ["https://a.test"; "https://c.test"])
    as (_ & Hmember & _ & _).
  exact (proj1 (Hmember ltac:(discriminate) "https://c.test")).
Defined.

(** C9.  For the list without elements the allow-all branch is not taken,
    and the predicate is false for every origin. *)
Theorem empty_slice_rejects_all (origin : string) :
  stringz.SliceEqual [] [""] = false ∧
  NewAllowedOriginsFunc [] origin = false.
Proof. split; reflexivity. Qed.

(** ** Claims on start-up *)

(** The options of [NewUpstreamConnection] pass the check of Dial. *)
Lemma dialError_dial_options certPath :
  grpc.dialError (dial_options certPath) = nil_error.
Proof. unfold dial_options. by destruct (String.eqb certPath ""). Qed.

Lemma upstream_result_dial_options world addr certPath :
  upstream_result world addr certPath =
    if negb (String.eqb certPath "") then
      match certFault world certPath with
      | Some e => (None, Some e, [EvReadCert certPath])
      | None =>
          match dialFault world addr (dial_options certPath) with
          | Some e => (None, Some e, [EvReadCert certPath; EvDial addr])
          | None =>
              (Some {| grpc.target := addr;
                       grpc.dopts := dial_options certPath |},
               nil_error, [EvReadCert certPath; EvDial addr])
          end
      end
    else
      match dialFault world addr (dial_options certPath) with
      | Some e => (None, Some e, [EvDial addr])
      | None =>
          (Some {| grpc.target := addr; grpc.dopts := dial_options certPath |},
           nil_error, [EvDial addr])
      end.
Proof.
  unfold upstream_result, dial_options.
  by destruct (String.eqb certPath "").
Qed.

(** C6, as the code has it.  [NewUpstreamConnection] returns a nil
    connection exactly when it returns an error, and it returns an error
    exactly when the certificate of the upstream, if one is named, does
    not load, or when [grpc.Dial] reports an error for the options it is
    given.  With an error [rootRun] writes the fatal log entry and exits
    with code 1: no server is started.  Without one [rootRun] goes on to
    start the grpc-web server, whose handler is the proxy built around
    the connection, and the metrics server.  Dial is called
    without [WithBlock]: with the Dial of the library the certificate is
    the only cause of an error, whatever listens at the upstream
    address. *)
Theorem upstream_error_is_fatal world cmd args cfg conn err evs :
  has_config cmd cfg →
  NewUpstreamConnection world
    (os.ExpandEnv (environ world) (upstream_addr cfg))
    (os.ExpandEnv (environ world) (upstream_cert_path cfg)) []
    = Returned (conn, err) evs →
  let addr := os.ExpandEnv (environ world) (upstream_addr cfg) in
  let certPath := os.ExpandEnv (environ world) (upstream_cert_path cfg) in
  let logger := if debug cfg then zap.Development else zap.Production in
  (conn = None ↔ err ≠ nil_error) ∧
  (err ≠ nil_error ↔
     (certPath ≠ "" ∧ certFault world certPath ≠ None) ∨
     ((certPath = "" ∨ certFault world certPath = None) ∧
      dialFault world addr (dial_options certPath) ≠ None)) ∧
  (dials_like_grpc world →
     (err ≠ nil_error ↔ certPath ≠ "" ∧ certFault world certPath ≠ None)) ∧
  match err with
  | Some e =>
      rootRun world cmd args [] =
        Exited 1
          (evs ++ [EvLog logger zap.FatalLevel "failed to connect to upstream"
                     [("error", e)]]) ∧
      servers (trace (rootRun world cmd args [])) = []
  | None =>
      ∃ tr srv w,
        rootRun world cmd args [] = Returned tt tr ∧
        NewGrpcProxyServer logger conn []
          = Returned (srv, nil_error)
              [EvEnableTracing; EvReplaceGrpcLogger logger] ∧
        NewGrpcWebServer srv
          (strings.Split
             (os.ExpandEnv (environ world) (web_allowed_origins cfg)) ",") []
          = Returned (w, nil_error) [] ∧
        servers tr =
          [ {| http.Addr := os.ExpandEnv (environ world) (web_addr cfg);
               http.Handler := Some w |};
            {| http.Addr := os.ExpandEnv (environ world) (metrics_addr cfg);
               http.Handler := None |} ]
  end.
Proof.
  intros Hc Hup addr certPath logger.
  rewrite (rootRun_eq _ _ _ _ Hc).
  pose proof (rootRun_outcome_servers world cfg) as Hsrv. cbv zeta in Hsrv.
  rewrite NewUpstreamConnection_eq in Hup.
  unfold rootRun_outcome in *. cbv zeta.
  fold addr certPath logger in Hup, Hsrv |- *.
  pose proof (upstream_result_dial_options world addr certPath) as Hres.
  destruct (upstream_result world addr certPath)
    as [[conn' err'] evs'] eqn:Hcases.
  apply upstream_result_cases in Hcases as [_ Hcases].
  injection Hup as -> -> ->. cbn [app] in *.
  assert (err ≠ nil_error ↔
            (certPath ≠ "" ∧ certFault world certPath ≠ None) ∨
            ((certPath = "" ∨ certFault world certPath = None) ∧
             dialFault world addr (dial_options certPath) ≠ None)) as Herr.
  { clear Hcases Hsrv.
    destruct (String.eqb_spec certPath "") as [Hp|Hp]; cbn [negb] in Hres.
    - destruct (dialFault world addr _) eqn:Hd; injection Hres as _ -> _;
        unfold nil_error; intuition congruence.
    - destruct (certFault world certPath) eqn:Hcf.
      + injection Hres as _ -> _. unfold nil_error. intuition congruence.
      + destruct (dialFault world addr _) eqn:Hd; injection Hres as _ -> _;
          unfold nil_error; intuition congruence. }
  split_and!.
  - destruct Hcases as [(e & -> & ->)|(opts & -> & -> & _)]; split; done.
  - exact Herr.
  - intros Hgrpc. rewrite Herr, Hgrpc, dialError_dial_options.
    unfold nil_error. intuition congruence.
  - destruct err as [e|].
    + split; [done|]. exact Hsrv.
    + eexists _, _, _. split; [reflexivity|].
      split; [reflexivity|]. split; [reflexivity|]. exact Hsrv.
Qed.

Lemma upstream_error_is_fatal_witness :
  rootRun missing_cert_world tls_cmd [] [] =
    Exited 1
      [ EvReadCert "/etc/upstream-ca.pem";
        EvLog zap.Production zap.FatalLevel "failed to connect to upstream"
          [("error",
            "open /etc/upstream-ca.pem: no such file or directory")] ].
Proof.
  destruct (upstream_error_is_fatal missing_cert_world tls_cmd [] tls_config
              None
              (Some "open /etc/upstream-ca.pem: no such file or directory")
              [EvReadCert "/etc/upstream-ca.pem"])
    as (_ & _ & _ & Hrun & _).
  - repeat constructor.
  - vm_compute. reflexivity.
  - exact Hrun.
Defined.

(** C6 as stated fails: no backend listens at the upstream address, and
    [NewUpstreamConnection] returns a connection and a nil error all the
    same; [rootRun] writes no fatal entry and starts both servers. *)
Lemma unreachable_upstream_still_serves :
  nothing_listens "127.0.0.1:50051" = false ∧
  NewUpstreamConnection down_world "127.0.0.1:50051" "" []
    = Returned (Some insecure_conn, nil_error) [EvDial "127.0.0.1:50051"] ∧
  fatal_messages (trace (rootRun down_world main_cmd [] [])) = [] ∧
  servers (trace (rootRun down_world main_cmd [] []))
    = [ default_web_server;
        {| http.Addr := ":9090"; http.Handler := None |} ].
Proof. split_and!; vm_compute; reflexivity. Qed.

(** C7.  The codec of the proxy returns the bytes it is given, with a nil
    error, in both directions.  It is the codec of the server
    [NewGrpcProxyServer] builds and the codec of every connection
    [NewUpstreamConnection] returns, so a payload relayed from the client
    to the backend, or back, arrives as it was sent. *)
Theorem codec_is_identity (payload : list Byte.byte) :
  grpc.Marshal proxy.Codec payload = (payload, nil_error) ∧
  grpc.Unmarshal proxy.Codec payload = (payload, nil_error) ∧
  (∀ logger upstream tr,
     ∃ srv tr', NewGrpcProxyServer logger upstream tr
                  = Returned (srv, nil_error) tr' ∧
                grpc.codec srv = Some proxy.Codec) ∧
  (∀ world addr certPath tr conn err tr',
     NewUpstreamConnection world addr certPath tr
       = Returned (Some conn, err) tr' →
     grpc.connCodec conn = Some proxy.Codec) ∧
  (∀ srv conn arrive leave,
     grpc.codec srv = Some arrive → grpc.connCodec conn = Some leave →
     arrive = proxy.Codec → leave = proxy.Codec →
     relay arrive leave payload = (payload, nil_error) ∧
     relay leave arrive payload = (payload, nil_error)).
Proof.
  split_and!; try reflexivity.
  - intros logger upstream tr. by eexists _, _.
  - intros world addr certPath tr conn err tr' Hup.
    rewrite NewUpstreamConnection_eq in Hup.
    destruct (upstream_result world addr certPath) as [[c e] evs] eqn:Hres.
    injection Hup as -> -> <-.
    apply upstream_result_cases in Hres
      as [_ [(e' & [=] & _)|(opts & [= ->] & _ & _ & Hlast)]].
    unfold grpc.connCodec; cbn [grpc.dopts].
    apply last_Some in Hlast as [opts' ->].
    rewrite omap_app. cbn [omap list_omap app].
    apply last_snoc.
  - by intros srv conn arrive leave _ _ -> ->.
Qed.

Lemma codec_is_identity_witness :
  grpc.connCodec insecure_conn = Some proxy.Codec.
Proof.
  destruct (codec_is_identity []) as (_ & _ & _ & Hconn & _).
  apply (Hconn quiet_world "127.0.0.1:50051" "" [] insecure_conn nil_error
           [EvDial "127.0.0.1:50051"]).
  vm_compute. reflexivity.
Defined.

(** C8.  Whatever the connection it was built with, the context and the
    method name, the director returns, with a nil error and the
    connection it was built with; so it does on a context without
    metadata and the empty method name.  The director of every server
    [rootRun] starts was built with a connection that is not nil. *)
Theorem director_never_fails world cmd args cfg srv w :
  has_config cmd cfg →
  srv ∈ servers (trace (rootRun world cmd args [])) →
  http.Handler srv = Some w →
  (∀ upstream ctx method h,
     ∃ ctx' h', director upstream ctx method h
                  = (ctx', upstream, nil_error, h')) ∧
  ∃ conn,
    grpc.unknownHandler (grpcweb.server w) = Some (director (Some conn)) ∧
    (∀ ctx method h,
       ∃ ctx' h', director (Some conn) ctx method h
                    = (ctx', Some conn, nil_error, h')) ∧
    director (Some conn) Background "" []
      = (valueCtx Background mdOutgoingKey (VrawMD (mdAt 0)),
         Some conn, nil_error, [∅]).
Proof.
  intros Hc Hin Hw.
  assert (∀ upstream ctx method h,
            ∃ ctx' h', director upstream ctx method h
                         = (ctx', upstream, nil_error, h')) as Htotal.
  { intros. rewrite director_eq. by eexists _, _. }
  split; [exact Htotal|].
  destruct (rootRun_served_handler world cmd args cfg srv w Hc Hin Hw)
    as (logger & upstream & evs & Hres & ->).
  apply upstream_result_cases in Hres
    as [_ [(e & _ & [=])|(opts & -> & _)]].
  eexists. split_and!; [reflexivity|by intros|].
  rewrite director_eq. unfold incoming_metadata. cbn.
  by rewrite !delete_empty.
Qed.

Lemma director_never_fails_witness :
  grpc.unknownHandler
    (grpcweb.server
       (web_handler (proxy_server zap.Production (Some insecure_conn)) [""]))
    = Some (director (Some insecure_conn)).
Proof.
  destruct (director_never_fails quiet_world main_cmd [] defaults
              default_web_server
              (web_handler (proxy_server zap.Production (Some insecure_conn))
                 [""]))
    as (_ & conn & Hconn & _).
  - repeat constructor.
  - vm_compute. apply list_elem_of_here.
  - reflexivity.
  - reflexivity.
Defined.

(** ** Claims on the flags *)

(** C10, as the code has it.  For a string flag [MustGetString] returns
    the value of the flag after [os.ExpandEnv]: a reference in braces or
    a bare one is replaced by the value of that variable in the
    environment of the process.  It panics exactly when the lookup of the
    flag fails, that is when no flag of that name is defined or when the
    flag is defined with another type than string.  Every string value
    [rootRun] uses is read this way. *)
Theorem MustGetString_expands world cmd key tr :
  (∀ s, cobra.Flags cmd !! key = Some (pflag.stringValue s) →
     MustGetString world cmd key tr
       = Returned (os.ExpandEnv (environ world) s) tr) ∧
  ((∃ msg tr', MustGetString world cmd key tr = Panicked msg tr') ↔
     cobra.Flags cmd !! key = None ∨
     ∃ b, cobra.Flags cmd !! key = Some (pflag.boolValue b)) ∧
  (∀ pre name post,
     no_dollar pre = true → braced_name name = true →
     os.ExpandEnv (environ world) (pre +:+ "${" +:+ name +:+ "}" +:+ post)
       = pre +:+ os.Getenv (environ world) name
             +:+ os.ExpandEnv (environ world) post) ∧
  (∀ pre name post,
     no_dollar pre = true → plain_name name = true →
     starts_alnum post = false →
     os.ExpandEnv (environ world) (pre +:+ "$" +:+ name +:+ post)
       = pre +:+ os.Getenv (environ world) name
             +:+ os.ExpandEnv (environ world) post) ∧
  (∀ args cfg,
     has_config cmd cfg →
     rootRun world cmd args [] = rootRun_outcome world cfg).
Proof.
  split_and!.
  - intros s Hs. by rewrite MustGetString_eq, Hs.
  - rewrite MustGetString_eq.
    destruct (cobra.Flags cmd !! key) as [[s|b]|]; split.
    + by intros (msg & tr' & [=]).
    + by intros [[=]|[b [=]]].
    + intros _. right. by eexists.
    + intros _. by eexists _, _.
    + intros _. by left.
    + intros _. by eexists _, _.
  - intros pre name post Hpre Hname. unfold os.ExpandEnv.
    by rewrite Expand_prefix, Expand_braced.
  - intros pre name post Hpre Hname Hpost. unfold os.ExpandEnv.
    by rewrite Expand_prefix, Expand_plain.
  - intros args cfg. apply rootRun_eq.
Qed.

Lemma MustGetString_expands_witness :
  MustGetString deploy_world deploy_cmd "upstream-addr" []
    = Returned "backend:50051" [].
Proof.
  destruct (MustGetString_expands deploy_world deploy_cmd "upstream-addr" [])
    as (Hval & _).
  rewrite (Hval "${UPSTREAM_HOST}:$PORT") by (vm_compute; reflexivity).
  vm_compute. reflexivity.
Defined.

(** C10 as stated fails: [debug] is a flag [main] defines, and
    [MustGetString] panics on it. *)
Lemma MustGetString_panics_on_defined_flag :
  cobra.Flags main_cmd !! "debug" = Some (pflag.boolValue false) ∧
  MustGetString quiet_world main_cmd "debug" []
    = Panicked
        "failed to find flag debug: trying to get string value of flag of type bool"
        [].
Proof. split; vm_compute; reflexivity. Qed.

(** * Further properties *)

(** ** Binding flags to the environment *)

Section sync.
Variables (environ : gmap string string) (prefix : string).
Implicit Types (fs : flags.FlagSet) (f : flags.Flag) (name : string).

Lemma find_bound (v : viper.Viper) name envkey :
  viper.find environ (viper.BindEnv v name envkey) name =
    match environ !! envkey with
    | Some val => if String.eqb val "" then None else Some val
    | None => None
    end.
Proof.
  unfold viper.find, viper.BindEnv. rewrite lookup_insert_eq. cbn.
  by destruct (environ !! envkey).
Qed.

(** One visit changes the visited flag alone, into [synced_flag] of it. *)
Lemma syncViper_visit_lookup name f v fs name' :
  fs !! name = Some f →
  (syncViper_visit environ prefix name f (v, fs)).2 !! name' =
    if decide (name = name') then Some (synced_flag environ prefix name f)
    else fs !! name'.
Proof.
  intros Hf. unfold syncViper_visit, synced_flag, viper.IsSet, viper.Get.
  fold (env_name prefix name). rewrite find_bound.
  destruct (flags.Changed f) eqn:Hch; cbn [negb andb].
  { case_decide; by subst. }
  destruct (environ !! env_name prefix name) as [val|] eqn:Henv; cbn;
    [|case_decide; by subst].
  destruct (String.eqb val "") eqn:Hval; cbn; [case_decide; by subst|].
  unfold flags.Set_. rewrite Hf.
  destruct (flags.Value_Set (flags.Value f) val) as [w ok].
  destruct ok; cbn [fst]; rewrite lookup_insert; case_decide; try done.
  by rewrite Hch.
Qed.

Lemma syncViper_fold_lookup (m fs0 : flags.FlagSet) v0 name :
  m ⊆ fs0 →
  (map_fold (syncViper_visit environ prefix) (v0, fs0) m).2 !! name =
    match m !! name with
    | Some f => Some (synced_flag environ prefix name f)
    | None => fs0 !! name
    end.
Proof.
  intros Hsub. revert Hsub name.
  apply (map_fold_weak_ind
           (λ r m, m ⊆ fs0 → ∀ name,
              r.2 !! name =
                match m !! name with
                | Some f => Some (synced_flag environ prefix name f)
                | None => fs0 !! name
                end)); clear m.
  - intros _ name. by rewrite lookup_empty.
  - intros i x m [v fs] Hi IH Hsub name.
    assert (m ⊆ fs0) as Hm.
    { etrans; [|exact Hsub]. by apply insert_subseteq. }
    assert (fs !! i = Some x) as Hx.
    { specialize (IH Hm i). cbn in IH. rewrite Hi in IH. rewrite IH.
      eapply lookup_weaken; [|exact Hsub]. apply lookup_insert_eq. }
    rewrite (syncViper_visit_lookup i x v fs name Hx), lookup_insert.
    case_decide; [by subst|]. apply (IH Hm).
Qed.

End sync.

(** [syncViper] in closed form: every flag becomes [synced_flag] of
    itself, and the error is nil. *)
Lemma syncViper_lookup world cmd prefix name :
  (syncViper world cmd prefix).1 !! name =
    synced_flag (environ world) prefix name <$> cmd !! name.
Proof.
  unfold syncViper.
  pose proof (syncViper_fold_lookup (environ world) prefix cmd cmd
                viper.New name (reflexivity _)) as H.
  destruct (map_fold _ _ cmd) as [v cmd']. cbn in *. rewrite H.
  by destruct (cmd !! name).
Qed.

Lemma syncViper_error world cmd prefix :
  (syncViper world cmd prefix).2 = nil_error.
Proof. unfold syncViper. by destruct (map_fold _ _ cmd). Qed.

Example env_name_of_flags :
  env_name "GRPCWEBPROXY" "upstream-addr" = "GRPCWEBPROXY_UPSTREAM_ADDR" ∧
  env_name "GRPCWEBPROXY" "web-allowed-origins"
    = "GRPCWEBPROXY_WEB_ALLOWED_ORIGINS" ∧
  env_name "GRPCWEBPROXY" "debug" = "GRPCWEBPROXY_DEBUG".
Proof. split_and!; vm_compute; reflexivity. Qed.

(** X1.  [syncViper] leaves a flag with an ASCII name as it is when the
    flag was set on the command line, and when its environment variable
    is not set or is empty: the command line wins over the environment,
    and an empty variable does not override the default. *)
Theorem syncViper_keeps_flag world cmd prefix name f :
  is_ascii name = true →
  cmd !! name = Some f →
  flags.Changed f = true ∨
  environ world !! env_name prefix name = None ∨
  environ world !! env_name prefix name = Some "" →
  (syncViper world cmd prefix).1 !! name = Some f.
Proof.
  intros _ Hf Hcase. rewrite syncViper_lookup, Hf. cbn. f_equal.
  unfold synced_flag.
  destruct (flags.Changed f); [done|].
  destruct Hcase as [|[->| ->]]; done.
Qed.

(** A deployment that sets the upstream address both ways. *)
Lemma syncViper_keeps_flag_witness :
  (syncViper
     {| environ := {[ "GRPCWEBPROXY_UPSTREAM_ADDR" := "env:1" ]};
        certFault := λ _, None; dialFault := λ _ _, None |}
     (<[ "upstream-addr" :=
           {| flags.Value := pflag.stringValue "cli:2";
              flags.Changed := true |} ]> main_declared)
     "GRPCWEBPROXY").1 !! "upstream-addr"
  = Some {| flags.Value := pflag.stringValue "cli:2"; flags.Changed := true |}.
Proof.
  apply syncViper_keeps_flag.
  - vm_compute. reflexivity.
  - vm_compute. reflexivity.
  - left. reflexivity.
Defined.

(** X2.  A string flag with an ASCII name that was not set on the command
    line takes the value of its environment variable when that is set and
    not empty, and counts as changed.  [MustGetString] then returns that value after
    expansion: references in a value that comes from the environment are
    expanded like those of a command-line value. *)
Theorem syncViper_string_from_env world cmd prefix name d val tr :
  is_ascii name = true →
  cmd !! name =
    Some {| flags.Value := pflag.stringValue d; flags.Changed := false |} →
  environ world !! env_name prefix name = Some val →
  val ≠ "" →
  (syncViper world cmd prefix).1 !! name =
    Some {| flags.Value := pflag.stringValue val; flags.Changed := true |} ∧
  MustGetString world (flags.command_of (syncViper world cmd prefix).1) name tr
    = Returned (os.ExpandEnv (environ world) val) tr.
Proof.
  intros _ Hf Henv Hval.
  assert ((syncViper world cmd prefix).1 !! name =
            Some {| flags.Value := pflag.stringValue val;
                    flags.Changed := true |}) as Hres.
  { rewrite syncViper_lookup, Hf. cbn. unfold synced_flag. cbn.
    rewrite Henv. by destruct (String.eqb_spec val ""). }
  split; [exact Hres|].
  rewrite MustGetString_eq. unfold flags.command_of. cbn.
  by rewrite lookup_fmap, Hres.
Qed.

Lemma syncViper_string_from_env_witness :
  MustGetString
    {| environ := {[ "GRPCWEBPROXY_WEB_ADDR" := ":$PORT"; "PORT" := "8443" ]};
       certFault := λ _, None; dialFault := λ _ _, None |}
    (flags.command_of
       (syncViper
          {| environ :=
               {[ "GRPCWEBPROXY_WEB_ADDR" := ":$PORT"; "PORT" := "8443" ]};
             certFault := λ _, None; dialFault := λ _ _, None |}
          main_declared "GRPCWEBPROXY").1)
    "web-addr" []
  = Returned ":8443" [].
Proof.
  destruct (syncViper_string_from_env
              {| environ :=
                   {[ "GRPCWEBPROXY_WEB_ADDR" := ":$PORT"; "PORT" := "8443" ]};
                 certFault := λ _, None; dialFault := λ _ _, None |}
              main_declared "GRPCWEBPROXY" "web-addr" ":80" ":$PORT" [])
    as [_ Hget].
  - vm_compute. reflexivity.
  - vm_compute. reflexivity.
  - vm_compute. reflexivity.
  - discriminate.
  - rewrite Hget. vm_compute. reflexivity.
Defined.

(** X3.  A bool flag with an ASCII name that was not set on the command
    line and whose environment variable is set and not empty becomes what
    [strconv.ParseBool] makes of the variable: one of its accepted
    spellings sets the flag and marks it changed; any other text sets the
    flag to false, whatever it was, and leaves it unmarked, the error
    being dropped. *)
Theorem syncViper_bool_from_env world cmd prefix name b val :
  is_ascii name = true →
  cmd !! name =
    Some {| flags.Value := pflag.boolValue b; flags.Changed := false |} →
  environ world !! env_name prefix name = Some val →
  val ≠ "" →
  (syncViper world cmd prefix).1 !! name =
    Some {| flags.Value := pflag.boolValue (strconv.ParseBool val).1;
            flags.Changed := (strconv.ParseBool val).2 |} ∧
  (val ∉ ["1"; "t"; "T"; "TRUE"; "true"; "True";
          "0"; "f"; "F"; "FALSE"; "false"; "False"] →
   strconv.ParseBool val = (false, false)).
Proof.
  intros _ Hf Henv Hval. split.
  - rewrite syncViper_lookup, Hf. cbn. unfold synced_flag. cbn.
    rewrite Henv. destruct (String.eqb_spec val ""); [done|].
    by destruct (strconv.ParseBool val).
  - intros Hnot. unfold strconv.ParseBool.
    rewrite !bool_decide_eq_false_2; [done|..]; intros Hin; apply Hnot.
    + apply (elem_of_app ["1"; "t"; "T"; "TRUE"; "true"; "True"]
               ["0"; "f"; "F"; "FALSE"; "false"; "False"]). by right.
    + apply (elem_of_app ["1"; "t"; "T"; "TRUE"; "true"; "True"]
               ["0"; "f"; "F"; "FALSE"; "false"; "False"]). by left.
Qed.

Lemma syncViper_bool_from_env_witness :
  (syncViper
     {| environ := {[ "GRPCWEBPROXY_DEBUG" := "yes" ]};
        certFault := λ _, None; dialFault := λ _ _, None |}
     (<[ "debug" := {| flags.Value := pflag.boolValue true;
                       flags.Changed := false |} ]> main_declared)
     "GRPCWEBPROXY").1 !! "debug"
  = Some {| flags.Value := pflag.boolValue false; flags.Changed := false |}.
Proof.
  destruct (syncViper_bool_from_env
              {| environ := {[ "GRPCWEBPROXY_DEBUG" := "yes" ]};
                 certFault := λ _, None; dialFault := λ _ _, None |}
              (<[ "debug" := {| flags.Value := pflag.boolValue true;
                                flags.Changed := false |} ]> main_declared)
              "GRPCWEBPROXY" "debug" true "yes")
    as [Hres _].
  - vm_compute. reflexivity.
  - vm_compute. reflexivity.
  - vm_compute. reflexivity.
  - discriminate.
  - exact Hres.
Defined.

(** [syncViper] declares and drops no flag and changes no type. *)
Lemma synced_flag_type environ prefix name f :
  pflag.Type_ (flags.Value (synced_flag environ prefix name f))
    = pflag.Type_ (flags.Value f).
Proof.
  unfold synced_flag. destruct (flags.Changed f); [done|].
  destruct (environ !! env_name prefix name) as [val|]; [|done].
  destruct (String.eqb val ""); [done|].
  destruct f as [[s|b] ch]; cbn; [done|].
  by destruct (strconv.ParseBool val).
Qed.

Lemma declares_main_config (fs : flags.FlagSet) :
  declares_main fs → ∃ cfg, has_config (flags.command_of fs) cfg.
Proof.
  intros Hd.
  assert (∀ name d, main_flags !! name = Some (pflag.stringValue d) →
            ∃ s, cobra.Flags (flags.command_of fs) !! name
                   = Some (pflag.stringValue s)) as Hstr.
  { intros name d Hm. specialize (Hd _ _ Hm). unfold declared_as in Hd.
    destruct (fs !! name) as [[[s|b] ch]|] eqn:Hf; [|done..].
    exists s. cbn. by rewrite lookup_fmap, Hf. }
  assert (∀ name d, main_flags !! name = Some (pflag.boolValue d) →
            ∃ b, cobra.Flags (flags.command_of fs) !! name
                   = Some (pflag.boolValue b)) as Hbool.
  { intros name d Hm. specialize (Hd _ _ Hm). unfold declared_as in Hd.
    destruct (fs !! name) as [[[s|b] ch]|] eqn:Hf; [done| |done].
    exists b. cbn. by rewrite lookup_fmap, Hf. }
  destruct (Hstr "upstream-addr" _ eq_refl) as [a Ha].
  destruct (Hstr "upstream-cert-path" _ eq_refl) as [c Hc].
  destruct (Hstr "web-addr" _ eq_refl) as [w Hw].
  destruct (Hstr "web-key-path" _ eq_refl) as [k Hk].
  destruct (Hstr "web-cert-path" _ eq_refl) as [e He].
  destruct (Hstr "web-allowed-origins" _ eq_refl) as [o Ho].
  destruct (Hstr "metrics-addr" _ eq_refl) as [m Hm].
  destruct (Hbool "debug" _ eq_refl) as [b Hb].
  exists {| debug := b; upstream_addr := a; upstream_cert_path := c;
            web_addr := w; web_key_path := k; web_cert_path := e;
            web_allowed_origins := o; metrics_addr := m |}.
  unfold has_config, flags_of. cbn [debug upstream_addr upstream_cert_path
    web_addr web_key_path web_cert_path web_allowed_origins metrics_addr].
  repeat (apply Forall_cons; split; [assumption|]). apply Forall_nil_2.
Qed.

(** X4.  [syncViper] returns a nil error, and the flags afterwards are
    the flags before under the same names and with the same types; so
    every flag [main] declares is still declared. *)
Theorem syncViper_keeps_names_and_types world cmd prefix :
  (syncViper world cmd prefix).2 = nil_error ∧
  dom (syncViper world cmd prefix).1 = dom cmd ∧
  (∀ name f, cmd !! name = Some f →
     ∃ f', (syncViper world cmd prefix).1 !! name = Some f' ∧
           pflag.Type_ (flags.Value f') = pflag.Type_ (flags.Value f)) ∧
  (declares_main cmd → declares_main (syncViper world cmd prefix).1).
Proof.
  split_and!.
  - apply syncViper_error.
  - apply set_eq. intros name. rewrite !elem_of_dom, syncViper_lookup.
    by rewrite fmap_is_Some.
  - intros name f Hf. eexists. rewrite syncViper_lookup, Hf. split; [done|].
    apply synced_flag_type.
  - intros Hd name v Hv. specialize (Hd name v Hv).
    unfold declared_as in *. rewrite syncViper_lookup.
    destruct (cmd !! name) as [f|]; [|done]. cbn.
    by rewrite synced_flag_type.
Qed.

Lemma syncViper_keeps_names_and_types_witness :
  declares_main
    (syncViper
       {| environ := {[ "GRPCWEBPROXY_DEBUG" := "yes" ]};
          certFault := λ _, None; dialFault := λ _ _, None |}
       main_declared "GRPCWEBPROXY").1.
Proof.
  apply syncViper_keeps_names_and_types.
  unfold declares_main. apply (bool_decide_unpack _). vm_compute. exact I.
Defined.

(** X5.  With the flags [main] declares, whatever the command line and
    the environment made of their values, running the command never
    panics: either the upstream connection fails and the process exits
    with code 1, or the command returns a nil error after starting its
    servers. *)
Theorem rootCmd_execute_never_panics world cmd args :
  declares_main cmd →
  (∀ msg tr, rootCmd_execute world cmd args [] ≠ Panicked msg tr) ∧
  ((∃ tr, rootCmd_execute world cmd args [] = Exited 1 tr ∧ servers tr = []) ∨
   (∃ tr, rootCmd_execute world cmd args [] = Returned nil_error tr ∧
          length (servers tr) = 2)).
Proof.
  intros Hd.
  destruct (syncViper_keeps_names_and_types world cmd "GRPCWEBPROXY")
    as (Herr & _ & _ & Hkeep).
  destruct (declares_main_config _ (Hkeep Hd)) as [cfg Hcfg].
  unfold rootCmd_execute.
  destruct (syncViper world cmd "GRPCWEBPROXY") as [cmd' err].
  cbn [fst snd] in *. subst err. unfold nil_error.
  unfold mbind, IO_mbind, IO_bind, mret, IO_mret, IO_ret. cbv beta iota.
  rewrite (rootRun_eq _ _ _ _ Hcfg).
  pose proof (rootRun_outcome_servers world cfg) as Hsrv.
  unfold rootRun_outcome in *. cbv zeta in *.
  destruct (upstream_result world _ _) as [[upstream e] evs].
  destruct e as [e|]; cbn [trace] in Hsrv.
  - split; [done|]. left. eexists. split; [reflexivity|exact Hsrv].
  - split; [done|]. right. eexists. split; [reflexivity|]. by rewrite Hsrv.
Qed.

Lemma rootCmd_execute_never_panics_witness :
  ∃ tr, rootCmd_execute quiet_world main_declared [] [] = Returned nil_error tr.
Proof.
  destruct (rootCmd_execute_never_panics quiet_world main_declared [])
    as [_ [(tr & Hrun & _)|(tr & Hrun & _)]].
  - unfold declares_main. apply (bool_decide_unpack _). vm_compute. exact I.
  - exfalso. revert Hrun. vm_compute. discriminate.
  - exists tr. exact Hrun.
Defined.

(** ** More on the flags *)

(** X6.  [MustGetBool] returns the value of a bool flag and leaves no
    event; it panics exactly when no flag of that name is defined or the
    flag has another type than bool, and it never exits. *)
Theorem MustGetBool_value_or_panic (cmd : cobra.Command) key tr :
  (∀ b, cobra.Flags cmd !! key = Some (pflag.boolValue b) →
     MustGetBool cmd key tr = Returned b tr) ∧
  ((∃ msg tr', MustGetBool cmd key tr = Panicked msg tr') ↔
     cobra.Flags cmd !! key = None ∨
     ∃ s, cobra.Flags cmd !! key = Some (pflag.stringValue s)) ∧
  (∀ code tr', MustGetBool cmd key tr ≠ Exited code tr').
Proof.
  rewrite MustGetBool_eq.
  destruct (cobra.Flags cmd !! key) as [[s|b]|]; split_and!; try done.
  - split; [intros _; right; by eexists|intros _; by eexists _, _].
  - intros b' [= ->]. done.
  - split; [by intros (msg & tr' & [=])|by intros [[=]|[s [=]]]].
  - split; [intros _; by left|intros _; by eexists _, _].
Qed.

Lemma MustGetBool_value_or_panic_witness :
  MustGetBool main_cmd "debug" [] = Returned false [].
Proof.
  destruct (MustGetBool_value_or_panic main_cmd "debug" []) as (Hval & _).
  apply Hval. vm_compute. reflexivity.
Defined.

(** ** More on the upstream connection *)

(** The events of [NewUpstreamConnection]: reading the certificate when a
    path is given, then dialing unless the certificate failed to load. *)
Lemma upstream_result_events world addr certPath :
  (upstream_result world addr certPath).2 =
    (if String.eqb certPath "" then [] else [EvReadCert certPath]) ++
    (if String.eqb certPath "" then [EvDial addr]
     else match certFault world certPath with
          | Some _ => []
          | None => [EvDial addr]
          end).
Proof.
  unfold upstream_result.
  destruct (String.eqb certPath ""); cbn [negb].
  - by destruct (dialFault world addr _).
  - destruct (certFault world certPath); [done|].
    by destruct (dialFault world addr _).
Qed.

(** X7.  A connection [NewUpstreamConnection] returns comes with a nil
    error, has the given address as its target, and was dialed with two
    options: first the transport security, which is [WithInsecure] exactly
    when the certificate path is empty and otherwise the credentials of
    that certificate file with an empty server name override, then the
    codec of the proxy. *)
Theorem NewUpstreamConnection_options world addr certPath tr conn err tr' :
  NewUpstreamConnection world addr certPath tr = Returned (Some conn, err) tr' →
  err = nil_error ∧
  grpc.target conn = addr ∧
  grpc.dopts conn =
    [ if String.eqb certPath "" then grpc.WithInsecure
      else grpc.WithTransportCredentials
             (Some {| grpc.certFile := certPath; grpc.serverName := "" |});
      grpc.WithCodec proxy.Codec ] ∧
  dialFault world addr (grpc.dopts conn) = None ∧
  (certPath ≠ "" → certFault world certPath = None).
Proof.
  rewrite NewUpstreamConnection_eq. unfold upstream_result.
  destruct (String.eqb_spec certPath "") as [->|Hne]; cbn [negb].
  - destruct (dialFault world addr _) eqn:Hd; intros [= <- <- _]; done.
  - destruct (certFault world certPath) eqn:Hc; [by intros [=]|].
    destruct (dialFault world addr _) eqn:Hd; intros [= <- <- _]; done.
Qed.

Lemma NewUpstreamConnection_options_witness :
  grpc.dopts insecure_conn = [grpc.WithInsecure; grpc.WithCodec proxy.Codec].
Proof.
  destruct (NewUpstreamConnection_options quiet_world "127.0.0.1:50051" ""
              [] insecure_conn nil_error [EvDial "127.0.0.1:50051"])
    as (_ & _ & Hopts & _).
  - vm_compute. reflexivity.
  - exact Hopts.
Defined.

(** X8.  [NewUpstreamConnection] only adds events.  It reads a
    certificate exactly when the path is not empty, and that path; it
    dials exactly when the path is empty or the certificate loads.  When
    the certificate does not load, the result is the nil connection with
    the error of the load, and no dial is made. *)
Theorem NewUpstreamConnection_events world addr certPath tr conn err tr' :
  NewUpstreamConnection world addr certPath tr = Returned (conn, err) tr' →
  ∃ evs,
    tr' = tr ++ evs ∧
    (∀ p, EvReadCert p ∈ evs ↔ p = certPath ∧ certPath ≠ "") ∧
    (∀ a, EvDial a ∈ evs ↔
            a = addr ∧ (certPath = "" ∨ certFault world certPath = None)) ∧
    (∀ e, certPath ≠ "" → certFault world certPath = Some e →
          conn = None ∧ err = Some e ∧ evs = [EvReadCert certPath]).
Proof.
  rewrite NewUpstreamConnection_eq.
  pose proof (upstream_result_events world addr certPath) as Hevs.
  destruct (upstream_result world addr certPath) as [[c e] evs] eqn:Hres.
  intros [= <- <- <-]. exists evs. cbn [snd] in Hevs. split; [done|].
  unfold upstream_result in Hres.
  destruct (String.eqb_spec certPath "") as [->|Hne]; cbn [negb] in Hres.
  - subst evs. cbn [app]. split_and!; [intros p|intros a|done];
      rewrite list_elem_of_singleton; intuition congruence.
  - destruct (certFault world certPath) as [e'|] eqn:Hc; subst evs;
      cbn [app].
    + injection Hres as <- <-.
      split_and!; [intros p|intros a|by intros e _ [= ->]];
        rewrite list_elem_of_singleton; intuition congruence.
    + split_and!; [intros p|intros a|done];
        rewrite elem_of_cons, list_elem_of_singleton; intuition congruence.
Qed.

Lemma NewUpstreamConnection_events_witness :
  NewUpstreamConnection
    {| environ := ∅; certFault := λ _, Some "no such file";
       dialFault := λ _ _, None |}
    "backend:443" "/etc/ca.pem" []
  = Returned (None, Some "no such file") [EvReadCert "/etc/ca.pem"].
Proof.
  destruct (NewUpstreamConnection_events
              {| environ := ∅; certFault := λ _, Some "no such file";
                 dialFault := λ _ _, None |}
              "backend:443" "/etc/ca.pem" []
              None (Some "no such file") [EvReadCert "/etc/ca.pem"])
    as (evs & _).
  - vm_compute. reflexivity.
  - vm_compute. reflexivity.
Defined.

(** ** More on start-up *)

Lemma listens_app tr1 tr2 : listens (tr1 ++ tr2) = listens tr1 ++ listens tr2.
Proof. apply flat_map_app. Qed.

Lemma fatal_messages_app tr1 tr2 :
  fatal_messages (tr1 ++ tr2) = fatal_messages tr1 ++ fatal_messages tr2.
Proof. apply flat_map_app. Qed.

(** The events of [NewUpstreamConnection] start no server and log
    nothing. *)
Lemma upstream_result_quiet world addr certPath :
  listens (upstream_result world addr certPath).2 = [] ∧
  fatal_messages (upstream_result world addr certPath).2 = [].
Proof.
  rewrite upstream_result_events.
  destruct (String.eqb certPath ""); [done|].
  by destruct (certFault world certPath).
Qed.

(** X9.  When [rootRun] gets to serve, it starts two servers.  The
    grpc-web server listens on the web address, and its handler is the
    wrapped proxy: what [NewGrpcWebServer] returns for the split of the
    origins flag and the server that [NewGrpcProxyServer] built around
    the connection [NewUpstreamConnection] returned.  So the handler
    wraps that server, asks [NewAllowedOriginsFunc] of the split origins
    about every origin and is not restricted to registered endpoints,
    and the server hands unknown services to the transparent handler of
    the director of that connection, with the proxy codec.  The grpc-web
    server serves TLS exactly when both the certificate path and the key
    path are not empty, and plain HTTP when either is missing.  The
    metrics server listens on the metrics address with the default
    handler, always over plain HTTP. *)
Theorem rootRun_tls_choice world cmd args cfg tr :
  has_config cmd cfg →
  rootRun world cmd args [] = Returned tt tr →
  let env := os.ExpandEnv (environ world) in
  let certPath := env (web_cert_path cfg) in
  let keyPath := env (web_key_path cfg) in
  let logger := if debug cfg then zap.Development else zap.Production in
  let origins := strings.Split (env (web_allowed_origins cfg)) "," in
  ∃ upstream evs srv w web metrics tls,
    NewUpstreamConnection world (env (upstream_addr cfg))
      (env (upstream_cert_path cfg)) [] = Returned (upstream, nil_error) evs ∧
    NewGrpcProxyServer logger upstream []
      = Returned (srv, nil_error) [EvEnableTracing; EvReplaceGrpcLogger logger] ∧
    NewGrpcWebServer srv origins [] = Returned (w, nil_error) [] ∧
    grpc.unknownHandler srv
      = Some (proxy.TransparentHandler (director upstream)) ∧
    grpc.codec srv = Some proxy.Codec ∧
    grpcweb.server w = srv ∧
    grpcweb.originFunc w = NewAllowedOriginsFunc origins ∧
    grpcweb.corsForRegisteredEndpointsOnly w = false ∧
    web = {| http.Addr := env (web_addr cfg); http.Handler := Some w |} ∧
    metrics = {| http.Addr := env (metrics_addr cfg); http.Handler := None |} ∧
    listens tr = [(web, tls); (metrics, None)] ∧
    (certPath ≠ "" ∧ keyPath ≠ "" → tls = Some (certPath, keyPath)) ∧
    (certPath = "" ∨ keyPath = "" → tls = None).
Proof.
  intros Hc Hrun env certPath keyPath logger origins.
  rewrite (rootRun_eq _ _ _ _ Hc) in Hrun. unfold rootRun_outcome in Hrun.
  cbv zeta in Hrun. fold env in Hrun. fold certPath keyPath in Hrun.
  fold logger origins in Hrun.
  pose proof (upstream_result_quiet world (env (upstream_addr cfg))
                (env (upstream_cert_path cfg))) as [Hq _].
  pose proof (NewUpstreamConnection_eq world (env (upstream_addr cfg))
                (env (upstream_cert_path cfg)) []) as Hconn.
  destruct (upstream_result world _ _) as [[upstream err] evs].
  cbn [snd] in Hq. destruct err as [e|]; [done|].
  injection Hrun as <-. rewrite listens_app, Hq. cbn [app] in Hconn |- *.
  exists upstream, evs, (proxy_server logger upstream),
    (web_handler (proxy_server logger upstream) origins).
  destruct (String.eqb_spec certPath "") as [Hcert|Hcert];
    destruct (String.eqb_spec keyPath "") as [Hkey|Hkey]; cbn [negb andb];
    eexists _, _, _; split_and!;
    try exact Hconn; try reflexivity; intuition congruence.
Qed.

Lemma rootRun_tls_choice_witness :
  listens
    (trace
       (rootRun quiet_world
          {| cobra.Flags :=
               <[ "web-cert-path" := pflag.stringValue "/tls/cert.pem" ]>
                 main_flags |} [] []))
  = [ ({| http.Addr := ":80";
          http.Handler :=
            Some (web_handler (proxy_server zap.Production (Some insecure_conn))
                    [""]) |}, None);
      ({| http.Addr := ":9090"; http.Handler := None |}, None) ].
Proof.
  destruct (rootRun_tls_choice quiet_world
              {| cobra.Flags :=
                   <[ "web-cert-path" := pflag.stringValue "/tls/cert.pem" ]>
                     main_flags |} []
              {| debug := false; upstream_addr := "127.0.0.1:50051";
                 upstream_cert_path := ""; web_addr := ":80";
                 web_key_path := ""; web_cert_path := "/tls/cert.pem";
                 web_allowed_origins := ""; metrics_addr := ":9090" |}
              (trace
                 (rootRun quiet_world
                    {| cobra.Flags :=
                         <[ "web-cert-path" := pflag.stringValue "/tls/cert.pem" ]>
                           main_flags |} [] [])))
    as (upstream & evs & srv & w & web & metrics & tls & Hup & Hsrv & Hw
        & _ & _ & _ & _ & _ & -> & -> & Hl & _ & Hplain).
  - repeat constructor.
  - vm_compute. reflexivity.
  - rewrite Hl, Hplain by (right; vm_compute; reflexivity).
    injection Hup as <- _. injection Hsrv as <-. injection Hw as <-.
    reflexivity.
Defined.

Ltac io_unfold :=
  cbv beta iota delta
    [mbind IO_mbind IO_bind mret IO_mret IO_ret emit panic Exit
     fatal_on Fatal Info defer go nil_error].

(** The next flag is read, whatever the command defines. *)
Ltac read_any_flag world :=
  rewrite (MustGetString_eq world);
  first
    [ match goal with
      | H : cobra.Flags ?cmd !! ?key = _
        |- context [cobra.Flags ?cmd !! ?key] => rewrite H
      end
    | match goal with
      | |- context [cobra.Flags ?cmd !! ?key] =>
          destruct (cobra.Flags cmd !! key) as [[?|?]|] eqn:?
      end ];
  io_unfold.

(** A run that ended without fatal entry. *)
Ltac no_fatal Hq :=
  cbn [trace]; rewrite ?fatal_messages_app, ?Hq; left; reflexivity.

(** X10.  [NewGrpcProxyServer] and [NewGrpcWebServer] return a nil error
    always, so of the three fatal branches of [rootRun] only the first
    can be taken: whatever the flags of the command and the world, the
    run writes no fatal log entry, or it writes the single entry of the
    failed upstream connection and exits with code 1. *)
Theorem rootRun_only_upstream_is_fatal world cmd args :
  (∀ logger upstream tr,
     ∃ srv tr', NewGrpcProxyServer logger upstream tr
                  = Returned (srv, nil_error) tr') ∧
  (∀ srv origins tr,
     ∃ w, NewGrpcWebServer srv origins tr = Returned (w, nil_error) tr) ∧
  (fatal_messages (trace (rootRun world cmd args [])) = [] ∨
   (fatal_messages (trace (rootRun world cmd args []))
      = ["failed to connect to upstream"] ∧
    ∃ tr, rootRun world cmd args [] = Exited 1 tr)).
Proof.
  split_and!.
  - intros. by eexists _, _.
  - intros. by eexists.
  - unfold rootRun, serveWeb. io_unfold. rewrite MustGetBool_eq.
    destruct (cobra.Flags cmd !! "debug") as [[?|dbg]|] eqn:Hdbg;
      io_unfold; try (left; reflexivity).
    do 2 (read_any_flag world; try (left; reflexivity)).
    rewrite NewUpstreamConnection_eq.
    pose proof (upstream_result_quiet world
                  (os.ExpandEnv (environ world) s)
                  (os.ExpandEnv (environ world) s0)) as [_ Hq].
    destruct (upstream_result world _ _) as [[upstream err] evs].
    cbn [snd] in Hq. io_unfold. cbn [app] in *.
    destruct err as [e|].
    { right. cbn [trace]. rewrite fatal_messages_app, Hq.
      split; [reflexivity|by eexists]. }
    unfold NewGrpcProxyServer, NewGrpcWebServer. io_unfold.
    repeat (read_any_flag world; try no_fatal Hq).
    destruct (negb _ && negb _);
      repeat (read_any_flag world; try no_fatal Hq).
Qed.

(** ** More on the director *)

(** A call leaves the incoming metadata of every context as it was. *)
Lemma incoming_metadata_frame ctx (h : Heap) (m : MD) :
  (∀ l, (metadata.FromIncomingContext ctx).1 = mdAt l → l < length h) →
  incoming_metadata ctx (h ++ [m]) = incoming_metadata ctx h.
Proof.
  intros Hvalid. unfold incoming_metadata.
  destruct (metadata.FromIncomingContext ctx).1 as [|l] eqn:Hr; [done|].
  cbn [deref]. by rewrite lookup_app_l by eauto.
Qed.

(** X11.  Two calls of the director do not interfere.  The second call
    leaves the outgoing metadata of the first as it was and puts its own
    into another map object; and when it is made on the same incoming
    context whose metadata is a map of the store, or on the context the
    first call returned, its outgoing metadata has the same content. *)
Theorem director_calls_independent upstream ctx1 method1 ctx2 method2
    h c1 u1 e1 h1 c2 u2 e2 h2 :
  director upstream ctx1 method1 h = (c1, u1, e1, h1) →
  director upstream ctx2 method2 h1 = (c2, u2, e2, h2) →
  (∀ l, (metadata.FromIncomingContext ctx1).1 = mdAt l → l < length h) →
  outgoing_metadata c1 h2 = outgoing_metadata c1 h1 ∧
  metadata.outgoing_ref c1 ≠ metadata.outgoing_ref c2 ∧
  (ctx2 = ctx1 ∨ ctx2 = c1 →
   outgoing_metadata c2 h2 = outgoing_metadata c1 h1).
Proof.
  rewrite !director_eq. intros [= <- _ _ <-] [= <- _ _ <-] Hvalid.
  rewrite !outgoing_metadata_director.
  split_and!.
  - unfold outgoing_metadata, metadata.outgoing_ref. cbn [Value].
    rewrite decide_True by done. cbn [deref].
    rewrite lookup_app_l by (rewrite length_app; cbn; lia).
    by rewrite lookup_app_r, Nat.sub_diag by lia.
  - unfold metadata.outgoing_ref. cbn [Value].
    rewrite !decide_True by done. rewrite length_app. cbn.
    intros [= ?]. lia.
  - intros Hctx. do 2 f_equal.
    assert (incoming_metadata ctx2
              (h ++ [delete "connection"
                       (delete "user-agent" (incoming_metadata ctx1 h))])
            = incoming_metadata ctx1 h) as ->; [|done].
    destruct Hctx as [->| ->].
    + apply incoming_metadata_frame; auto.
    + unfold incoming_metadata at 1. unfold metadata.FromIncomingContext.
      cbn [Value]. rewrite decide_False by done.
      apply (incoming_metadata_frame ctx1); auto.
Qed.

Lemma director_calls_independent_witness :
  outgoing_metadata
    (director None browser_ctx "/pkg.Svc/Other" browser_call.2).1.1.1
    (director None browser_ctx "/pkg.Svc/Other" browser_call.2).2
  = outgoing_metadata browser_call.1.1.1 browser_call.2.
Proof.
  destruct (director_calls_independent None browser_ctx "/pkg.Svc/Call"
              browser_ctx "/pkg.Svc/Other" [browser_md]
              browser_call.1.1.1 browser_call.1.1.2 browser_call.1.2
              browser_call.2
              (director None browser_ctx "/pkg.Svc/Other" browser_call.2).1.1.1
              (director None browser_ctx "/pkg.Svc/Other" browser_call.2).1.1.2
              (director None browser_ctx "/pkg.Svc/Other" browser_call.2).1.2
              (director None browser_ctx "/pkg.Svc/Other" browser_call.2).2)
    as (_ & _ & Hsame).
  - vm_compute. reflexivity.
  - vm_compute. reflexivity.
  - intros l. vm_compute. intros [= <-]. lia.
  - exact (Hsame (or_introl eq_refl)).
Defined.

(** X12.  On a context that carries no incoming metadata, be it no value
    at all, a value of another type or the nil map, the director attaches
    outgoing metadata all the same: a new map object, not nil, without
    any key. *)
Theorem director_without_metadata upstream ctx method h ctx' conn err h' :
  director upstream ctx method h = (ctx', conn, err, h') →
  (metadata.FromIncomingContext ctx).1 = nilMD →
  metadata.outgoing_ref ctx' = mdAt (length h) ∧
  h' = h ++ [∅] ∧
  outgoing_metadata ctx' h' = ∅.
Proof.
  rewrite director_eq. intros [= <- _ _ <-] Hnil.
  rewrite outgoing_metadata_director. unfold incoming_metadata.
  rewrite Hnil. cbn [deref]. rewrite !delete_empty.
  split_and!; done.
Qed.

Lemma director_without_metadata_witness :
  (director None (valueCtx Background mdIncomingKey (VOther 3)) "" []).2 = [∅].
Proof.
  destruct (director_without_metadata None
              (valueCtx Background mdIncomingKey (VOther 3)) "" []
              (director None (valueCtx Background mdIncomingKey (VOther 3)) "" []).1.1.1
              (director None (valueCtx Background mdIncomingKey (VOther 3)) "" []).1.1.2
              (director None (valueCtx Background mdIncomingKey (VOther 3)) "" []).1.2
              (director None (valueCtx Background mdIncomingKey (VOther 3)) "" []).2)
    as (_ & Hh & _).
  - vm_compute. reflexivity.
  - vm_compute. reflexivity.
  - exact Hh.
Defined.

(** ** More on the origins *)

(** The predicate allows every origin for the allow-all list only. *)
Lemma allows_all_iff (urls : list string) :
  (∀ origin, NewAllowedOriginsFunc urls origin = true) ↔ urls = [""].
Proof.
  split; [|by intros ->].
  intros Hall. destruct (decide (urls = [""])) as [|Hne]; [done|].
  specialize (Hall (dashes (S (longest urls)))).
  rewrite NewAllowedOriginsFunc_other, SliceContains_elem in Hall by done.
  by apply some_origin_missing in Hall.
Qed.

(** X13.  The grpc-web server [rootRun] starts answers CORS requests for
    every endpoint, registered or not.  It allows every origin exactly
    when the origins flag, after expansion, is empty; otherwise it allows
    exactly the pieces of the flag between its commas, compared as they
    stand, blanks included. *)
Theorem served_origins world cmd args cfg srv w :
  has_config cmd cfg →
  srv ∈ servers (trace (rootRun world cmd args [])) →
  http.Handler srv = Some w →
  let configured := os.ExpandEnv (environ world) (web_allowed_origins cfg) in
  grpcweb.corsForRegisteredEndpointsOnly w = false ∧
  ((∀ origin, grpcweb.originFunc w origin = true) ↔ configured = "") ∧
  (configured ≠ "" →
   ∀ origin, grpcweb.originFunc w origin = true ↔
             origin ∈ strings.Split configured ",").
Proof.
  intros Hc Hin Hw configured.
  destruct (rootRun_served_handler world cmd args cfg srv w Hc Hin Hw)
    as (logger & upstream & evs & _ & ->).
  fold configured. cbn [web_handler grpcweb.corsForRegisteredEndpointsOnly
                        grpcweb.originFunc].
  split_and!; [done| |].
  - by rewrite allows_all_iff, Split_single_empty.
  - intros Hne origin.
    rewrite NewAllowedOriginsFunc_other, SliceContains_elem; [done|].
    by rewrite Split_single_empty.
Qed.

Lemma served_origins_witness :
  grpcweb.originFunc
    (web_handler (proxy_server zap.Production (Some insecure_conn))
       ["https://a.test"; " https://b.test"]) "https://b.test"
  = false.
Proof.
  destruct (served_origins quiet_world
              {| cobra.Flags :=
                   <[ "web-allowed-origins" :=
                        pflag.stringValue "https://a.test, https://b.test" ]>
                     main_flags |} []
              {| debug := false; upstream_addr := "127.0.0.1:50051";
                 upstream_cert_path := ""; web_addr := ":80";
                 web_key_path := ""; web_cert_path := "";
                 web_allowed_origins := "https://a.test, https://b.test";
                 metrics_addr := ":9090" |}
              {| http.Addr := ":80";
                 http.Handler :=
                   Some (web_handler
                           (proxy_server zap.Production (Some insecure_conn))
                           ["https://a.test"; " https://b.test"]) |}
              (web_handler (proxy_server zap.Production (Some insecure_conn))
                 ["https://a.test"; " https://b.test"]))
    as (_ & _ & Hmem).
  - repeat constructor.
  - vm_compute. apply list_elem_of_here.
  - reflexivity.
  - apply not_true_is_false. intros Hallowed.
    apply Hmem in Hallowed; [|vm_compute; discriminate].
    revert Hallowed. vm_compute.
    intros Hin. repeat (apply elem_of_cons in Hin as [[=]|Hin]).
    by apply elem_of_nil in Hin.
Defined.

(** A byte that is not the separator goes to the first piece. *)
Lemma Split_cons_neq c s sep :
  Ascii.eqb c sep = false →
  ∃ piece pieces, strings.Split s sep = piece :: pieces ∧
                  strings.Split (String c s) sep = String c piece :: pieces.
Proof.
  intros Hc. cbn. rewrite Hc.
  destruct (strings.Split s sep) as [|piece pieces] eqn:Hs.
  - by apply Split_nonempty in Hs.
  - by eexists _, _.
Qed.

Lemma Join_cons_piece c piece pieces sep :
  strings.Join (String c piece :: pieces) sep
    = String c (strings.Join (piece :: pieces) sep).
Proof. by destruct pieces. Qed.

Lemma Join_cons_cons e e' elems sep :
  strings.Join (e :: e' :: elems) sep
    = e +:+ sep +:+ strings.Join (e' :: elems) sep.
Proof. reflexivity. Qed.

Lemma Split_no_sep piece sep :
  os.index sep piece = None → strings.Split piece sep = [piece].
Proof.
  induction piece as [|d piece IH]; [done|]. cbn [os.index strings.Split].
  destruct (Ascii.eqb d sep); [done|].
  destruct (os.index sep piece); [done|]. intros _. by rewrite IH.
Qed.

Lemma Split_piece_sep piece sep rest :
  os.index sep piece = None →
  strings.Split (piece +:+ String sep rest) sep
    = piece :: strings.Split rest sep.
Proof.
  induction piece as [|d piece IH].
  - intros _. rewrite append_nil_l. cbn [strings.Split].
    by rewrite Ascii.eqb_refl.
  - cbn [os.index]. destruct (Ascii.eqb d sep) eqn:Hd; [done|].
    destruct (os.index sep piece); [done|]. intros _.
    rewrite append_cons. cbn [strings.Split]. by rewrite Hd, IH.
Qed.

(** X14.  Splitting at a separator loses nothing and leaves no separator:
    the pieces joined by the separator give the string back, none of the
    pieces holds the separator, and there is always at least one piece.
    The other way round, a list of at least one piece, none of which
    holds the separator, is what its join splits into. *)
Theorem Split_Join_round_trip (sep : ascii) :
  (∀ s, strings.Join (strings.Split s sep) (String sep "") = s ∧
        Forall (λ piece, os.index sep piece = None) (strings.Split s sep) ∧
        strings.Split s sep ≠ []) ∧
  (∀ pieces, pieces ≠ [] →
     Forall (λ piece, os.index sep piece = None) pieces →
     strings.Split (strings.Join pieces (String sep "")) sep = pieces).
Proof.
  split.
  - intros s. split_and!; [| |apply Split_nonempty].
    + induction s as [|c s IH]; [done|].
      destruct (Ascii.eqb c sep) eqn:Hc.
      * cbn [strings.Split]. rewrite Hc. apply Ascii.eqb_eq in Hc as ->.
        pose proof (Split_nonempty s sep).
        destruct (strings.Split s sep) as [|piece pieces] eqn:Hs; [done|].
        by rewrite Join_cons_cons, IH.
      * destruct (Split_cons_neq c s sep Hc) as (piece & pieces & Hs & ->).
        rewrite Join_cons_piece. rewrite Hs in IH. by rewrite IH.
    + induction s as [|c s IH]; [by repeat constructor|].
      destruct (Ascii.eqb c sep) eqn:Hc.
      * cbn [strings.Split]. rewrite Hc. by constructor.
      * destruct (Split_cons_neq c s sep Hc) as (piece & pieces & Hs & ->).
        rewrite Hs in IH. apply Forall_cons in IH as [Hp Hps].
        constructor; [|done]. cbn. by rewrite Hc, Hp.
  - intros pieces Hne Hall.
    induction Hall as [|piece pieces Hp Hps IH]; [done|]. clear Hne.
    destruct pieces as [|piece' pieces].
    + by apply Split_no_sep.
    + rewrite Join_cons_cons.
      change (piece +:+ String sep "" +:+ ?r) with (piece +:+ String sep r).
      rewrite Split_piece_sep by done. f_equal. by apply IH.
Qed.

Lemma Split_Join_round_trip_witness :
  strings.Split (strings.Join ["https://a.test"; ""; "b"] ",") ","
    = ["https://a.test"; ""; "b"].
Proof.
  apply (proj2 (Split_Join_round_trip ",")).
  - discriminate.
  - repeat constructor.
Defined.

(** ** More on expansion *)

Lemma append_nil_r s : s +:+ "" = s.
Proof. induction s as [|c s IH]; [done|]. by rewrite append_cons, IH. Qed.

Lemma append_assoc' s1 s2 s3 : (s1 +:+ s2) +:+ s3 = s1 +:+ s2 +:+ s3.
Proof.
  induction s1 as [|c s1 IH]; [done|]. by rewrite !append_cons, IH.
Qed.

(** X15.  A string flag whose value holds no dollar sign comes back from
    [MustGetString] byte for byte, whatever the environment; and a dollar
    sign at the very end of a value stays. *)
Theorem MustGetString_verbatim world cmd key s tr :
  cobra.Flags cmd !! key = Some (pflag.stringValue s) →
  no_dollar s = true →
  MustGetString world cmd key tr = Returned s tr ∧
  os.ExpandEnv (environ world) (s +:+ "$") = s +:+ "$".
Proof.
  intros Hs Hnd. rewrite MustGetString_eq, Hs. unfold os.ExpandEnv.
  split.
  - f_equal. rewrite <- (append_nil_r s) at 1.
    rewrite Expand_prefix by done. apply append_nil_r.
  - by rewrite Expand_prefix.
Qed.

Lemma MustGetString_verbatim_witness :
  MustGetString deploy_world main_cmd "upstream-addr" []
    = Returned "127.0.0.1:50051" [].
Proof.
  apply MustGetString_verbatim; vm_compute; reflexivity.
Defined.

(** X16.  A reference to a variable that is not set is no error:
    [MustGetString] returns the value with the reference taken out, for
    the bare form and for the form in braces. *)
Theorem MustGetString_unset_variable world cmd key pre name post tr :
  no_dollar pre = true →
  environ world !! name = None →
  (plain_name name = true → starts_alnum post = false →
   cobra.Flags cmd !! key
     = Some (pflag.stringValue (pre +:+ "$" +:+ name +:+ post)) →
   MustGetString world cmd key tr
     = Returned (pre +:+ os.ExpandEnv (environ world) post) tr) ∧
  (braced_name name = true →
   cobra.Flags cmd !! key
     = Some (pflag.stringValue (pre +:+ "${" +:+ name +:+ "}" +:+ post)) →
   MustGetString world cmd key tr
     = Returned (pre +:+ os.ExpandEnv (environ world) post) tr).
Proof.
  intros Hpre Hunset.
  assert (os.Getenv (environ world) name = "") as Hget.
  { unfold os.Getenv. by rewrite Hunset. }
  split.
  - intros Hname Hpost Hs. rewrite MustGetString_eq, Hs.
    unfold os.ExpandEnv.
    by rewrite Expand_prefix, Expand_plain, Hget.
  - intros Hname Hs. rewrite MustGetString_eq, Hs. unfold os.ExpandEnv.
    by rewrite Expand_prefix, Expand_braced, Hget.
Qed.

Lemma MustGetString_unset_variable_witness :
  MustGetString quiet_world
    {| cobra.Flags :=
         <[ "upstream-addr" := pflag.stringValue "$HOST:50051" ]> main_flags |}
    "upstream-addr" []
  = Returned ":50051" [].
Proof.
  destruct (MustGetString_unset_variable quiet_world
              {| cobra.Flags :=
                   <[ "upstream-addr" := pflag.stringValue "$HOST:50051" ]>
                     main_flags |}
              "upstream-addr" "" "HOST" ":50051" [])
    as [Hplain _].
  - reflexivity.
  - reflexivity.
  - rewrite Hplain; vm_compute; reflexivity.
Defined.

Lemma index_none_no_brace s :
  all_chars (λ c, negb (Ascii.eqb c "}")) s = true → os.index "}" s = None.
Proof.
  induction s as [|c s IH]; [done|]. cbn [all_chars os.index].
  intros [Hc Hs]%andb_prop. apply negb_true_iff in Hc.
  by rewrite Hc, IH.
Qed.

(** X17.  A malformed reference is no error either, and is taken out:
    an empty pair of braces after the dollar sign vanishes, and of an
    opening brace that is never closed the dollar sign and the brace
    vanish while the text behind them stays. *)
Theorem ExpandEnv_malformed environ post :
  os.ExpandEnv environ ("${}" +:+ post) = os.ExpandEnv environ post ∧
  (all_chars (λ c, negb (Ascii.eqb c "}")) post = true →
   os.ExpandEnv environ ("${" +:+ post) = os.ExpandEnv environ post).
Proof.
  unfold os.ExpandEnv. split.
  - change ("${}" +:+ post) with (String "$" (String "{" (String "}" post))).
    rewrite Expand_cons. by destruct post.
  - intros Hpost.
    change ("${" +:+ post) with (String "$" (String "{" post)).
    rewrite Expand_cons. cbn [Ascii.eqb Bool.eqb String.eqb negb andb].
    unfold os.getShellName. cbn [Ascii.eqb Bool.eqb].
    rewrite (index_none_no_brace _ Hpost).
    replace (os.special_in_braces post) with false; [done|].
    destruct post as [|c1 [|c2 post]]; try done.
    cbn [all_chars] in Hpost.
    apply andb_prop in Hpost as [_ [Hc2 _]%andb_prop].
    apply negb_true_iff in Hc2. cbn [os.special_in_braces].
    by rewrite Hc2, andb_false_r.
Qed.

Lemma ExpandEnv_malformed_witness :
  os.ExpandEnv ∅ "${HOME/bin" = "HOME/bin".
Proof.
  destruct (ExpandEnv_malformed ∅ "HOME/bin") as [_ Hopen].
  transitivity (os.ExpandEnv ∅ "HOME/bin").
  - exact (Hopen eq_refl).
  - vm_compute. reflexivity.
Defined.

(** ** More on the servers *)

(** X18.  [NewGrpcProxyServer] does not look at the connection it is
    given.  For the nil connection too it returns a server and a nil
    error, the server hands unknown services to the transparent handler
    of the director of that connection, and that director returns the
    connection it was given, nil or not, with a nil error, for every
    call.  Only the director is stated: what the transparent handler
    does with the connection the director returned is code of the
    library and is left out. *)
Theorem NewGrpcProxyServer_unchecked_upstream logger upstream tr :
  ∃ srv,
    NewGrpcProxyServer logger upstream tr
      = Returned (srv, nil_error)
          (tr ++ [EvEnableTracing; EvReplaceGrpcLogger logger]) ∧
    grpc.unknownHandler srv
      = Some (proxy.TransparentHandler (director upstream)) ∧
    ∀ ctx method h,
      (director upstream ctx method h).1.1.2 = upstream ∧
      (director upstream ctx method h).1.2 = nil_error.
Proof.
  eexists. split_and!.
  - unfold NewGrpcProxyServer. io_unfold. by rewrite <- app_assoc.
  - reflexivity.
  - intros ctx method h. by rewrite director_eq.
Qed.

Lemma loggers_app tr1 tr2 : loggers (tr1 ++ tr2) = loggers tr1 ++ loggers tr2.
Proof. apply flat_map_app. Qed.

Lemma upstream_result_loggers world addr certPath :
  loggers (upstream_result world addr certPath).2 = [].
Proof.
  rewrite upstream_result_events.
  destruct (String.eqb certPath ""); [done|].
  by destruct (certFault world certPath).
Qed.

(** X19.  The debug flag picks the logger: the development logger when it
    is true, the production logger otherwise.  Every log entry of the run
    is written with that logger, and it is the logger handed to grpc.
    When [rootRun] returns, its last event is the deferred [Sync] of that
    logger; when it exits on the failed upstream connection, the fatal
    entry is the last event and no [Sync] is made. *)
Theorem rootRun_logger world cmd args cfg :
  has_config cmd cfg →
  let logger := if debug cfg then zap.Development else zap.Production in
  Forall (λ l, l = logger) (loggers (trace (rootRun world cmd args []))) ∧
  match rootRun world cmd args [] with
  | Returned _ tr => last tr = Some (EvSync logger)
  | Exited _ tr =>
      (EvSync logger ∉ tr) ∧
      ∃ e, last tr = Some (EvLog logger zap.FatalLevel
                             "failed to connect to upstream" [("error", e)])
  | Panicked _ _ => False
  end.
Proof.
  intros Hc logger. rewrite (rootRun_eq _ _ _ _ Hc).
  unfold rootRun_outcome. cbv zeta. fold logger.
  pose proof (upstream_result_loggers world
                (os.ExpandEnv (environ world) (upstream_addr cfg))
                (os.ExpandEnv (environ world) (upstream_cert_path cfg))) as Hl.
  pose proof (upstream_result_events world
                (os.ExpandEnv (environ world) (upstream_addr cfg))
                (os.ExpandEnv (environ world) (upstream_cert_path cfg))) as Hev.
  destruct (upstream_result world _ _) as [[upstream err] evs].
  cbn [snd] in Hl, Hev. destruct err as [e|]; cbn [trace].
  - split_and!.
    + rewrite loggers_app, Hl. by repeat constructor.
    + rewrite elem_of_app, list_elem_of_singleton. intros [Hin|[=]].
      subst evs. destruct (String.eqb _ ""); [|destruct (certFault _ _)];
        cbn in Hin; set_unfold; intuition congruence.
    + exists e. by rewrite last_snoc.
  - split.
    + rewrite loggers_app, Hl.
      destruct (negb _ && negb _); by repeat constructor.
    + by rewrite (last_app_cons evs _ _), !last_cons_cons.
Qed.

Lemma rootRun_logger_witness :
  last (trace (rootRun quiet_world main_cmd [] [])) = Some (EvSync zap.Production).
Proof.
  destruct (rootRun_logger quiet_world main_cmd [] defaults) as [_ Hlast].
  - repeat constructor.
  - revert Hlast. vm_compute. exact (λ H, H).
Defined.

(** ** More on the environment binding and the origins *)

Lemma synced_flag_idemp environ prefix name f :
  synced_flag environ prefix name (synced_flag environ prefix name f)
    = synced_flag environ prefix name f.
Proof.
  unfold synced_flag.
  destruct (flags.Changed f) eqn:Hch; [by rewrite ?Hch|].
  destruct (environ !! env_name prefix name) as [val|] eqn:Henv;
    [|by rewrite ?Hch, ?Henv].
  destruct (String.eqb val "") eqn:Hval; [by rewrite ?Hch, ?Henv, ?Hval|].
  destruct f as [[s|b] ch]; cbn [flags.Value flags.Value_Set flags.Changed].
  - done.
  - destruct (strconv.ParseBool val) as [b' ok] eqn:Hparse.
    cbn [flags.Changed flags.Value]. destruct ok; [done|].
    rewrite ?Henv, ?Hval. cbn [flags.Value_Set]. rewrite Hparse.
    unfold strconv.ParseBool in Hparse.
    repeat case_bool_decide; by simplify_eq.
Qed.

(** X20.  Binding the flags to the environment a second time changes
    nothing: what [syncViper] returns is a fixed point of it. *)
Theorem syncViper_idempotent world cmd prefix :
  (syncViper world (syncViper world cmd prefix).1 prefix).1
    = (syncViper world cmd prefix).1.
Proof.
  apply map_eq. intros name. rewrite !syncViper_lookup.
  destruct (cmd !! name) as [f|]; [|done]. cbn.
  by rewrite synced_flag_idemp.
Qed.

Lemma Split_trailing_sep s sep :
  last (strings.Split (s +:+ String sep "") sep) = Some "" ∧
  strings.Split (s +:+ String sep "") sep ≠ [""].
Proof.
  induction s as [|c s [IHl IHn]].
  - rewrite append_nil_l. cbn [strings.Split]. by rewrite Ascii.eqb_refl.
  - rewrite append_cons. cbn [strings.Split].
    destruct (Ascii.eqb c sep).
    + split; [|by destruct (strings.Split _ sep)].
      rewrite last_cons, IHl. done.
    + destruct (strings.Split (s +:+ String sep "") sep)
        as [|piece [|piece' pieces]] eqn:Hs; [done| |done].
      cbn in IHl. by injection IHl as ->.
Qed.

(** X21.  The pieces of the origins flag are taken as they stand, the
    empty ones too: a flag value that ends with a comma makes the server
    accept the empty origin, whatever comes before the comma. *)
Theorem trailing_comma_allows_empty_origin (s : string) :
  NewAllowedOriginsFunc (strings.Split (s +:+ ",") ",") "" = true.
Proof.
  destruct (Split_trailing_sep s ",") as [Hlast Hne].
  rewrite NewAllowedOriginsFunc_other, SliceContains_elem by done.
  apply last_Some in Hlast as [l' ->]. apply elem_of_app. right.
  apply list_elem_of_here.
Qed.

Lemma SliceEqual_single_perm (urls urls' : list string) :
  urls ≡ₚ urls' →
  stringz.SliceEqual urls [""] = stringz.SliceEqual urls' [""].
Proof.
  intros Hp.
  destruct (stringz.SliceEqual urls [""]) eqn:H1.
  - apply SliceEqual_eq in H1 as ->. apply Permutation_singleton_l in Hp as <-.
    done.
  - destruct (stringz.SliceEqual urls' [""]) eqn:H2; [|done].
    apply SliceEqual_eq in H2 as ->. apply Permutation_singleton_r in Hp as ->.
    done.
Qed.

(** X22.  The order of the origins in the list does not matter, and
    neither does a repetition in a list of other origins: two lists with
    the same elements give the same predicate, the allow-all list
    apart, which no other list equals. *)
Theorem allowed_origins_order (urls urls' : list string) (origin : string) :
  (urls ≡ₚ urls' →
   NewAllowedOriginsFunc urls origin = NewAllowedOriginsFunc urls' origin) ∧
  (urls ≠ [""] → urls' ≠ [""] → (∀ o, o ∈ urls ↔ o ∈ urls') →
   NewAllowedOriginsFunc urls origin = NewAllowedOriginsFunc urls' origin).
Proof.
  assert (∀ l l' : list string, (∀ o, o ∈ l ↔ o ∈ l') →
            stringz.SliceContains l origin = stringz.SliceContains l' origin)
    as Hmem.
  { intros l l' Hll.
    destruct (stringz.SliceContains l origin) eqn:H1;
      destruct (stringz.SliceContains l' origin) eqn:H2; try done.
    - apply SliceContains_elem, Hll, SliceContains_elem in H1. congruence.
    - apply SliceContains_elem, Hll, SliceContains_elem in H2. congruence. }
  split.
  - intros Hp. unfold NewAllowedOriginsFunc.
    rewrite (SliceEqual_single_perm _ _ Hp).
    destruct (stringz.SliceEqual urls' [""]); [done|].
    apply Hmem. intros o. by rewrite Hp.
  - intros Hne Hne' Hsame.
    rewrite !NewAllowedOriginsFunc_other by done. by apply Hmem.
Qed.

Lemma allowed_origins_order_witness :
  NewAllowedOriginsFunc ["https://a.test"; "https://b.test"] "https://b.test"
    = NewAllowedOriginsFunc ["https://b.test"; "https://a.test"] "https://b.test".
Proof.
  apply (proj1 (allowed_origins_order
                  ["https://a.test"; "https://b.test"]
                  ["https://b.test"; "https://a.test"] "https://b.test")).
  apply perm_swap.
Defined.
